(** * Gaussian Adaptive Attention (MHGAAM.py): a shallow embedding

    The development embeds [GaussianAdaptiveAttention] and
    [MultiHeadGaussianAdaptiveAttention] of
    [src/gaussian_adaptive_attention/MHGAAM.py].

    Conventions of the embedding.

    - Tensor entries are real numbers ([R]); torch's floating-point
      arithmetic is idealised to exact real arithmetic.  Where torch
      divides by zero it yields [nan] or [inf], values that real arithmetic
      does not have; a statement about the values of such quotients carries
      the hypotheses under which their denominators are non-zero.
    - Every tensor operation of the two [forward] methods ([mean], [var],
      [sum] with [keepdim=True], [narrow], [cat], and the broadcast
      elementwise operations) acts independently on each 1-D fibre of the
      input along [norm_axis].  A tensor is therefore given by its extent
      along [norm_axis] together with the family of its fibres along that
      axis, in a fixed order of the remaining indices.
    - Python exceptions are values of an error monad. *)

From Stdlib Require Import Reals Lra Lia List ZArith Bool Arith Permutation.
Import ListNotations.

Open Scope R_scope.

(** ** Exceptions and the error monad *)

Inductive exn : Set :=
| ValueError | TypeError | IndexError | AttributeError
| ZeroDivisionError | RuntimeError.

Inductive result (A : Type) : Type :=
| Ok (a : A)
| Raise (e : exn).

Arguments Ok {A} a.
Arguments Raise {A} e.

Definition bind {A B : Type} (r : result A) (k : A -> result B) : result B :=
  match r with
  | Ok a => k a
  | Raise e => Raise e
  end.

Notation "x <- r ;; k" := (bind r (fun x => k))
  (at level 61, r at next level, right associativity).

(** [mapM f l]: a list comprehension whose body may raise; the first
    exception, in list order, is the one that propagates. *)
Fixpoint mapM {A B : Type} (f : A -> result B) (l : list A) : result (list B) :=
  match l with
  | [] => Ok []
  | a :: l' => b <- f a ;; bs <- mapM f l' ;; Ok (b :: bs)
  end.

(** ** Python and torch primitives *)

(** [range(n)]: empty when [n <= 0]. *)
Definition range (n : Z) : list nat := seq 0 (Z.to_nat n).

(** [enumerate(l)]. *)
Definition enumerate {A : Type} (l : list A) : list (nat * A) :=
  combine (seq 0 (length l)) l.

(** [l[i]] for [0 <= i]. *)
Definition index {A : Type} (l : list A) (i : nat) : result A :=
  match nth_error l i with
  | Some a => Ok a
  | None => Raise IndexError
  end.

(** [a // b] on Python integers: floor division, [ZeroDivisionError] on a
    zero divisor.  [Z.div] rounds towards minus infinity as [//] does. *)
Definition floordiv (a b : Z) : result Z :=
  if (b =? 0)%Z then Raise ZeroDivisionError else Ok (a / b)%Z.

(** [torch.full((n,), v)]; [torch.zeros(n)] and [torch.ones(n)] are its
    instances.  A negative size is a [RuntimeError]. *)
Definition torch_full (n : Z) (v : R) : result (list R) :=
  if (n <? 0)%Z then Raise RuntimeError else Ok (repeat v (Z.to_nat n)).

Definition torch_zeros (n : Z) : result (list R) := torch_full n 0.
Definition torch_ones (n : Z) : result (list R) := torch_full n 1.

(** [a != b] on tensor entries. *)
Definition Rneb (a b : R) : bool :=
  if Req_dec_T a b then false else true.

Definition sum_list (l : list R) : R := fold_right Rplus 0 l.

(** [F.softmax(w, dim=0)]. *)
Definition softmax (w : list R) : list R :=
  map (fun v => exp v / sum_list (map exp w)) w.

(** Elementwise combination of two fibres of equal length. *)
Fixpoint map2 {A B C : Type} (f : A -> B -> C) (l1 : list A) (l2 : list B)
  : list C :=
  match l1, l2 with
  | a :: l1', b :: l2' => f a b :: map2 f l1' l2'
  | _, _ => []
  end.

(** [torch.where(mask, a, b)] on one fibre. *)
Definition where_ (mask : list bool) (a b : list R) : list R :=
  map2 (fun (m : bool) (ab : R * R) => if m then fst ab else snd ab)
       mask (combine a b).

(** ** Tensors as families of fibres along [norm_axis] *)

Abbreviation fibre := (list R) (only parsing).

Record tensor : Type := mkTensor {
  extent : nat;           (* x.shape[norm_axis] *)
  fibres : list fibre     (* one fibre per index of the other axes *)
}.

Definition wf_tensor (x : tensor) : Prop :=
  Forall (fun f => length f = extent x) (fibres x).

(** [f.mean()] of one fibre. *)
Definition fmean (f : fibre) : R := sum_list f / INR (length f).

(** [f.var()] of one fibre: torch's default is the unbiased estimator, the
    squared deviations are divided by [max(0, n - 1)].  This is the value
    on fibres of at least two entries; on shorter ones torch's quotient is
    [nan], which [var_is_nan] records. *)
Definition fvar (f : fibre) : R :=
  sum_list (map (fun v => (v - fmean f) ^ 2) f) / INR (length f - 1).

(** [x.narrow(norm_axis, start, length)]. *)
Definition narrow (x : tensor) (start len : Z) : result tensor :=
  let size := Z.of_nat (extent x) in
  if (len <? 0)%Z then Raise RuntimeError
  else if negb ((- size <=? start)%Z && (start <=? size)%Z)
  then Raise IndexError
  else
    let start' := if (start <? 0)%Z then (start + size)%Z else start in
    if (size - len <? start')%Z then Raise RuntimeError
    else Ok {| extent := Z.to_nat len;
               fibres := map (fun f => firstn (Z.to_nat len)
                                         (skipn (Z.to_nat start') f))
                             (fibres x) |}.

(** [torch.cat(ts, dim=norm_axis)]: the list must be non-empty and the
    tensors must agree on the other axes, that is, on the number of
    fibres. *)
Fixpoint cat_fibres (ts : list tensor) (acc : list fibre)
  : result (list fibre) :=
  match ts with
  | [] => Ok acc
  | t :: ts' =>
      if (length (fibres t) =? length acc)%nat
      then cat_fibres ts' (map2 (@app R) acc (fibres t))
      else Raise RuntimeError
  end.

Definition cat (ts : list tensor) : result tensor :=
  match ts with
  | [] => Raise RuntimeError
  | t :: ts' =>
      fs <- cat_fibres ts' (fibres t) ;;
      Ok {| extent := list_sum (map extent ts); fibres := fs |}
  end.

(** ** GaussianAdaptiveAttention *)

(** The [initial_c] argument: a Python number or a 1-D tensor. *)
Inductive scale_arg : Type :=
| ScalarC (v : R)
| TensorC (cs : list R).

(** The [learnable_weights] argument: a Python [bool], a 1-D tensor (which
    may itself be an [nn.Parameter], a subclass of [torch.Tensor]), or any
    other object. *)
Inductive weights_arg : Type :=
| PyBool (b : bool)
| PyTensor (is_parameter : bool) (w : list R)
| PyOther.

Record GaussianAdaptiveAttention : Type := mkGAA {
  norm_axis : Z;
  eps : R;
  num_gaussians : Z;
  padding_value : option R;
  mean_offsets : list R;
  c : list R;
  weights_is_parameter : bool; (* isinstance(self.weights, nn.Parameter) *)
  weights : list R
}.

(** [GaussianAdaptiveAttention.__init__]. *)
Definition GAA_init (norm_axis : Z) (num_gaussians : Z) (initial_c : scale_arg)
  (eps : R) (learnable_weights : weights_arg) (padding_value : option R)
  : result GaussianAdaptiveAttention :=
  mean_offsets <- torch_zeros num_gaussians ;;
  c <- match initial_c with
       | TensorC cs =>
           if negb (Z.of_nat (length cs) =? num_gaussians)%Z
           then Raise ValueError
           else Ok cs
       | ScalarC v => torch_full num_gaussians v
       end ;;
  w <- match learnable_weights with
       | PyBool true =>
           ones <- torch_ones num_gaussians ;; Ok (true, ones)
       | PyTensor p ws =>
           if negb (Z.of_nat (length ws) =? num_gaussians)%Z
           then Raise ValueError
           else Ok (p, ws)
       | _ => Raise TypeError
       end ;;
  Ok {| norm_axis := norm_axis; eps := eps; num_gaussians := num_gaussians;
        padding_value := padding_value; mean_offsets := mean_offsets;
        c := c; weights_is_parameter := fst w; weights := snd w |}.

(** The weights used by [forward]: the softmax of [self.weights] when it is
    an [nn.Parameter], [self.weights] itself otherwise. *)
Definition normalized_weights (m : GaussianAdaptiveAttention) : list R :=
  if weights_is_parameter m then softmax (weights m) else weights m.

(** One Gaussian component, as the loop body reads it at index [i]:
    [mean_offsets[i]], [c[i]] and [normalized_weights[i]]. *)
Definition component : Type := (R * R * R)%type.

Definition component_at (m : GaussianAdaptiveAttention) (i : nat)
  : result component :=
  off <- index (mean_offsets m) i ;;
  ci <- index (c m) i ;;
  wi <- index (normalized_weights m) i ;;
  Ok (off, ci, wi).

(** The components read by [for i in range(self.num_gaussians)], in order;
    an index out of range raises at the first iteration that meets it. *)
Definition components (m : GaussianAdaptiveAttention)
  : result (list component) :=
  mapM (component_at m) (range (num_gaussians m)).

Section Fibre.

Variable m : GaussianAdaptiveAttention.

(** [mask = x != self.padding_value]. *)
Definition mask (p : R) (x : fibre) : list bool :=
  map (fun v => Rneb v p) x.

Definition zeros_like (x : fibre) : fibre := map (fun _ => 0) x.

(** [x_masked]: padding positions replaced by zero. *)
Definition x_masked (x : fibre) : fibre :=
  match padding_value m with
  | Some p => where_ (mask p x) x (zeros_like x)
  | None => x
  end.

(** [mean] and [var] (lines 47 and 48), the entries of the size-1 axis
    that [keepdim=True] keeps. *)
Definition stat_mean (x : fibre) : R := fmean (x_masked x).
Definition stat_var (x : fibre) : R := fvar (x_masked x) + eps m.

(** [gaussian] of one loop iteration, over the reals: the real [exp] is
    positive everywhere, where float32's underflows to zero in the far
    tails. *)
Definition gaussian (mean var : R) (comp : component) (x : fibre) : fibre :=
  let '(off, ci, _) := comp in
  let adjusted_mean := mean + off in
  map (fun v =>
         let y_norm := (v - adjusted_mean) / sqrt var in
         exp (- (y_norm ^ 2) / (2 * ci ^ 2)))
      x.

(** One iteration of [mixture += normalized_weights[i] * gaussian]. *)
Definition mixture_step (mean var : R) (x : fibre)
  (acc : fibre) (comp : component) : fibre :=
  let '(_, _, wi) := comp in
  map2 Rplus acc (map (Rmult wi) (gaussian mean var comp x)).

(** [mixture] after the loop; the initial integer [0] broadcasts. *)
Definition mixture (comps : list component) (x : fibre) : fibre :=
  fold_left (mixture_step (stat_mean x) (stat_var x) x) comps (zeros_like x).

(** [mixture.sum(dim, keepdim=True).clamp(min=self.eps)]. *)
Definition total (comps : list component) (x : fibre) : R :=
  Rmax (sum_list (mixture comps x)) (eps m).

Definition y_transform (comps : list component) (x : fibre) : fibre :=
  map (fun v => v / total comps x) (mixture comps x).

(** The returned fibre (line 63). *)
Definition fibre_forward (comps : list component) (x : fibre) : fibre :=
  match padding_value m with
  | Some p => where_ (mask p x) (map2 Rmult x (y_transform comps x)) x
  | None => map2 Rmult x (y_transform comps x)
  end.

End Fibre.

(** ** Entries that are not real numbers *)

(** torch's unbiased [var] divides the sum of squared deviations by
    [max(0, n - 1)]: on a fibre of fewer than two entries the quotient is
    [0 / 0], which torch evaluates to [nan]. *)
Definition var_is_nan (f : fibre) : bool := (length f <? 2)%nat.

(** The transform as torch holds it, [None] standing for [nan].  A [nan]
    variance makes [y_norm] [nan] at every entry, hence every [gaussian],
    [mixture], its clamped sum and every entry of the transform.  With a
    positive [eps] and non-zero scales, the invariants of the data model,
    no other quotient of [forward] has a zero denominator, and the entries
    are the real numbers of [y_transform]. *)
Definition torch_y_transform (m : GaussianAdaptiveAttention)
  (comps : list component) (x : fibre) : list (option R) :=
  if var_is_nan (x_masked m x)
  then map (fun _ => None) x
  else map Some (y_transform m comps x).

(** [t.sum()] over entries that may be [nan]: one [nan] makes the sum
    [nan]. *)
Fixpoint sum_nan (l : list (option R)) : option R :=
  match l with
  | [] => Some 0
  | Some a :: l' => option_map (Rplus a) (sum_nan l')
  | None :: _ => None
  end.

(** [GaussianAdaptiveAttention.forward].  The parameter reads of the loop do
    not depend on the input, so they come first, with the exception they may
    raise; the rest of the method is [fibre_forward] on every fibre.  With
    no loop iteration [mixture] is still the integer [0], which has no [sum]
    method. *)
Definition forward (m : GaussianAdaptiveAttention) (x : tensor)
  : result tensor :=
  comps <- components m ;;
  match comps with
  | [] => Raise AttributeError
  | _ :: _ =>
      Ok {| extent := extent x;
            fibres := map (fibre_forward m comps) (fibres x) |}
  end.

(** ** MultiHeadGaussianAdaptiveAttention *)

Record MultiHeadGaussianAdaptiveAttention : Type := mkMH {
  num_heads : Z;
  mh_norm_axis : Z;
  attention_heads : list GaussianAdaptiveAttention
}.

(** [MultiHeadGaussianAdaptiveAttention.__init__]. *)
Definition MH_init (norm_axis num_heads num_gaussians : Z)
  (initial_variance : scale_arg) (learnable_weights : weights_arg)
  (padding_value : option R) (eps : R)
  : result MultiHeadGaussianAdaptiveAttention :=
  heads <- mapM (fun _ : nat =>
                   GAA_init norm_axis num_gaussians initial_variance eps
                            learnable_weights padding_value)
                (range num_heads) ;;
  Ok {| num_heads := num_heads; mh_norm_axis := norm_axis;
        attention_heads := heads |}.

(** The list comprehension of line 87.  Besides its result it returns the
    indices of the heads whose [forward] was entered, in call order. *)
Fixpoint run_heads (x : tensor) (chunk_size : Z)
  (ihs : list (nat * GaussianAdaptiveAttention))
  : list nat * result (list tensor) :=
  match ihs with
  | [] => ([], Ok [])
  | (i, head) :: rest =>
      match narrow x (Z.of_nat i * chunk_size) chunk_size with
      | Raise e => ([], Raise e)
      | Ok xi =>
          match forward head xi with
          | Raise e => ([i], Raise e)
          | Ok y =>
              let '(log, r) := run_heads x chunk_size rest in
              (i :: log, ys <- r ;; Ok (y :: ys))
          end
      end
  end.

(** [MultiHeadGaussianAdaptiveAttention.forward], with the log of head
    calls. *)
Definition MH_forward_traced (m : MultiHeadGaussianAdaptiveAttention)
  (x : tensor) : list nat * result tensor :=
  match floordiv (Z.of_nat (extent x)) (num_heads m) with
  | Raise e => ([], Raise e)
  | Ok chunk_size =>
      if (chunk_size =? 0)%Z then ([], Raise ValueError)
      else
        let '(log, r) :=
          run_heads x chunk_size (enumerate (attention_heads m)) in
        (log, ys <- r ;; cat ys)
  end.

Definition MH_forward (m : MultiHeadGaussianAdaptiveAttention) (x : tensor)
  : result tensor :=
  snd (MH_forward_traced m x).

(** ** Invariants *)

(** The data-model invariant of a single head: at least one component, and
    every per-component sequence of length [num_gaussians]. *)
Definition wf_GAA (m : GaussianAdaptiveAttention) : Prop :=
  (1 <= num_gaussians m)%Z /\
  Z.of_nat (length (mean_offsets m)) = num_gaussians m /\
  Z.of_nat (length (c m)) = num_gaussians m /\
  Z.of_nat (length (weights m)) = num_gaussians m.

(** The multi-head module owns [num_heads] well-formed heads. *)
Definition wf_MH (m : MultiHeadGaussianAdaptiveAttention) : Prop :=
  Z.of_nat (length (attention_heads m)) = Z.max 0 (num_heads m) /\
  Forall wf_GAA (attention_heads m).

(** The scale argument passes the constructor's check. *)
Definition scale_ok (G : Z) (ic : scale_arg) : Prop :=
  match ic with
  | ScalarC _ => True
  | TensorC cs => Z.of_nat (length cs) = G
  end.

(** ** Statistics of the non-padding elements *)

(** The elements of a fibre that differ from the padding value, and the
    number of those that equal it. *)
Definition nonpad (p : R) (f : fibre) : fibre :=
  filter (fun v => Rneb v p) f.

Definition padcount (p : R) (f : fibre) : nat :=
  length (filter (fun v => negb (Rneb v p)) f).

(** ** A well-formed head on one fibre *)

(** The components that [components] returns on a well-formed head, and
    the fibre that [forward] then computes. *)
Definition comps_of (m : GaussianAdaptiveAttention) : list component :=
  combine (combine (mean_offsets m) (c m)) (normalized_weights m).

Definition fibre_apply (m : GaussianAdaptiveAttention) (f : fibre) : fibre :=
  fibre_forward m (comps_of m) f.

(** The outputs of the heads on the chunks of size [chunk_size]. *)
Definition head_outputs (heads : list GaussianAdaptiveAttention)
  (chunk_size : nat) (x : tensor) : list tensor :=
  map (fun ih : nat * GaussianAdaptiveAttention =>
         {| extent := chunk_size;
            fibres := map (fun f => fibre_apply (snd ih)
                                      (firstn chunk_size
                                         (skipn (fst ih * chunk_size) f)))
                          (fibres x) |})
      (enumerate heads).

(** ** The partitioned computation in the specification's words *)

(** The elements of a fibre at the indices of [[lo, hi)]. *)
Definition spec_slice (f : fibre) (lo hi : nat) : fibre :=
  map (fun j => nth j f 0) (seq lo (hi - lo)).

(** The contiguous slice [[i * chunk_size, (i + 1) * chunk_size)] of the
    input along the axis, the input of head [i]. *)
Definition spec_head_input (x : tensor) (chunk_size i : nat) : tensor :=
  {| extent := chunk_size;
     fibres := map (fun f => spec_slice f (i * chunk_size)
                                        ((i + 1) * chunk_size))
                   (fibres x) |}.

(** The concatenation along the axis, in list order, of tensors that have
    [n] fibres each. *)
Definition spec_concat (outs : list tensor) (n : nat) : tensor :=
  {| extent := list_sum (map extent outs);
     fibres := map (fun k => concat (map (fun t => nth k (fibres t) []) outs))
                   (seq 0 n) |}.

(** Every head applied on its own to its own slice, the results
    concatenated in head order; a configuration error when the chunk size
    is zero. *)
Definition spec_MH_apply (m : MultiHeadGaussianAdaptiveAttention) (x : tensor)
  : result tensor :=
  let chunk_size := (extent x / Z.to_nat (num_heads m))%nat in
  if (chunk_size =? 0)%nat then Raise ValueError
  else
    outs <- mapM (fun ih => forward (snd ih)
                              (spec_head_input x chunk_size (fst ih)))
                 (enumerate (attention_heads m)) ;;
    Ok (spec_concat outs (length (fibres x))).

(** ** Concrete modules and inputs *)

(** A head with one Gaussian, the default [eps] and padding value [-1]. *)
Definition gaa_pad : GaussianAdaptiveAttention :=
  {| norm_axis := 0; eps := / 100000000; num_gaussians := 1;
     padding_value := Some (-1); mean_offsets := [0]; c := [2];
     weights_is_parameter := true; weights := [1] |}.

(** The head of the concrete scenario: one Gaussian, offset [0], scale [2],
    uniform learnable weight, no padding. *)
Definition gaa_scenario (e : R) : GaussianAdaptiveAttention :=
  {| norm_axis := 0; eps := e; num_gaussians := 1;
     padding_value := None; mean_offsets := [0]; c := [2];
     weights_is_parameter := true; weights := [1] |}.

Definition x_scenario : fibre := [1; 2; 3; 4].

(** Two heads that differ in their parameters, and inputs of extent 8, 5
    and 1 with a single fibre. *)
Definition head_a : GaussianAdaptiveAttention :=
  {| norm_axis := 0; eps := / 100000000; num_gaussians := 1;
     padding_value := None; mean_offsets := [0]; c := [2];
     weights_is_parameter := true; weights := [1] |}.

Definition head_b : GaussianAdaptiveAttention :=
  {| norm_axis := 0; eps := / 100000000; num_gaussians := 2;
     padding_value := None; mean_offsets := [1; -1]; c := [2; 3];
     weights_is_parameter := false; weights := [1; 1] |}.

Definition mh_two : MultiHeadGaussianAdaptiveAttention :=
  {| num_heads := 2; mh_norm_axis := 0; attention_heads := [head_a; head_b] |}.

Definition x_eight : tensor := mkTensor 8 [[1; 2; 3; 4; 5; 6; 7; 8]].
Definition x_five : tensor := mkTensor 5 [[1; 2; 3; 4; 5]].
Definition x_one : tensor := mkTensor 1 [[1]].

(** ** Entry-wise view of one head *)

(** The same head with no padding value configured. *)
Definition without_padding (m : GaussianAdaptiveAttention)
  : GaussianAdaptiveAttention :=
  {| norm_axis := norm_axis m; eps := eps m;
     num_gaussians := num_gaussians m; padding_value := None;
     mean_offsets := mean_offsets m; c := c m;
     weights_is_parameter := weights_is_parameter m; weights := weights m |}.

(** The value that the loop accumulates at an entry [v] of a fibre whose
    statistics are [mean] and [var]. *)
Definition mix_at (mean var : R) (comps : list component) (v : R) : R :=
  fold_left
    (fun acc (comp : component) =>
       let '(off, ci, wi) := comp in
       acc + wi * exp (- (((v - (mean + off)) / sqrt var) ^ 2) / (2 * ci ^ 2)))
    comps 0.

(** The output at an entry [v], given the fibre's statistics and the
    clamped mixture sum [t]. *)
Definition out_at (m : GaussianAdaptiveAttention) (mean var t : R)
  (comps : list component) (v : R) : R :=
  match padding_value m with
  | Some p => if Rneb v p then v * (mix_at mean var comps v / t) else v
  | None => v * (mix_at mean var comps v / t)
  end.

(** One loop iteration at an entry [u], as in [mix_at], with the standard
    deviation [s] in place of [sqrt var]. *)
Definition bell_step (mean s u : R) (acc : R) (comp : component) : R :=
  let '(off, ci, wi) := comp in
  acc + wi * exp (- (((u - (mean + off)) / s) ^ 2) / (2 * ci ^ 2)).

(** A component with zero offset, non-zero scale and positive weight. *)
Definition centred (comp : component) : Prop :=
  fst (fst comp) = 0 /\ snd (fst comp) <> 0 /\ 0 < snd comp.

(** A wrapper around a single head. *)
Definition mh_single (h : GaussianAdaptiveAttention)
  : MultiHeadGaussianAdaptiveAttention :=
  {| num_heads := 1; mh_norm_axis := norm_axis h; attention_heads := [h] |}.

(** * Properties *)

(** ** The primitives on concrete inputs *)

Example floordiv_floors :
  floordiv 5 2 = Ok 2%Z /\ floordiv (-5) 2 = Ok (-3)%Z /\
  floordiv 1 2 = Ok 0%Z /\ floordiv 5 0 = Raise ZeroDivisionError.
Proof. repeat split. Qed.

Example narrow_second_chunk :
  narrow x_eight 4 4 = Ok (mkTensor 4 [[5; 6; 7; 8]]) /\
  narrow x_five 4 2 = Raise RuntimeError.
Proof. split; reflexivity. Qed.

Example cat_two_chunks :
  cat [mkTensor 2 [[1; 2]; [5; 6]]; mkTensor 1 [[3]; [7]]]
  = Ok (mkTensor 3 [[1; 2; 3]; [5; 6; 7]]).
Proof. reflexivity. Qed.

Example init_default :
  GAA_init 0 2 (ScalarC 2) (/ 100000000) (PyBool true) None
  = Ok {| norm_axis := 0; eps := / 100000000; num_gaussians := 2;
          padding_value := None; mean_offsets := [0; 0]; c := [2; 2];
          weights_is_parameter := true; weights := [1; 1] |}.
Proof. reflexivity. Qed.

Example forward_no_gaussian :
  forward (mkGAA 0 (/ 100000000) 0 None [] [] true []) x_eight
  = Raise AttributeError.
Proof. reflexivity. Qed.

Example heads_called_in_order :
  fst (MH_forward_traced mh_two x_eight) = [0; 1]%nat /\
  fst (MH_forward_traced mh_two x_one) = [].
Proof. split; reflexivity. Qed.

(** ** Lists, sums and the monad *)

Lemma map2_length {A B C : Type} (f : A -> B -> C) (l1 : list A) (l2 : list B) :
  length (map2 f l1 l2) = Nat.min (length l1) (length l2).
Proof.
  revert l2; induction l1 as [|a l1 IH]; intros [|b l2]; simpl; auto.
Qed.

Lemma nth_error_map2 {A B C : Type} (f : A -> B -> C) l1 l2 j :
  nth_error (map2 f l1 l2) j =
  match nth_error l1 j, nth_error l2 j with
  | Some a, Some b => Some (f a b)
  | _, _ => None
  end.
Proof.
  revert l2 j; induction l1 as [|a l1 IH]; intros [|b l2] [|j]; simpl; auto.
  destruct (nth_error l1 j); reflexivity.
Qed.

Lemma nth_error_where mask a b j :
  length mask = length a -> length b = length a ->
  nth_error (where_ mask a b) j =
  match nth_error mask j, nth_error a j, nth_error b j with
  | Some true, Some u, _ => Some u
  | Some false, _, Some v => Some v
  | _, _, _ => None
  end.
Proof.
  unfold where_. revert a b j.
  induction mask as [|k mask IH]; intros [|u a] [|v b] [|j]; simpl;
    try discriminate; auto.
  destruct k; reflexivity.
Qed.

Lemma where_length mask a b :
  length mask = length a -> length b = length a ->
  length (where_ mask a b) = length a.
Proof.
  unfold where_. intros Hm Hb.
  rewrite map2_length, length_combine. lia.
Qed.

Lemma sum_list_cons a l : sum_list (a :: l) = a + sum_list l.
Proof. reflexivity. Qed.

Lemma sum_list_div l t :
  sum_list (map (fun v => v / t) l) = sum_list l / t.
Proof.
  induction l as [|a l IH]; simpl.
  - unfold Rdiv; lra.
  - rewrite IH. unfold Rdiv; lra.
Qed.

Lemma sum_list_pos l : l <> [] -> Forall (fun v => 0 < v) l -> 0 < sum_list l.
Proof.
  intros Hne Hall. destruct l as [|a l]; [contradiction|].
  clear Hne. revert a Hall. induction l as [|b l IH]; intros a Hall; simpl.
  - inversion Hall; subst. lra.
  - inversion Hall as [|? ? Ha Hl]; subst.
    specialize (IH b Hl). simpl in IH. lra.
Qed.

Lemma mapM_map {A B C : Type} (f : B -> result C) (g : A -> B) l :
  mapM f (map g l) = mapM (fun a => f (g a)) l.
Proof.
  induction l as [|a l IH]; simpl; [reflexivity | now rewrite IH].
Qed.

Lemma mapM_ext {A B : Type} (f g : A -> result B) l :
  (forall a, In a l -> f a = g a) -> mapM f l = mapM g l.
Proof.
  induction l as [|a l IH]; simpl; intros H; [reflexivity|].
  rewrite (H a) by auto. rewrite IH by auto. reflexivity.
Qed.

Lemma mapM_length {A B : Type} (f : A -> result B) l bs :
  mapM f l = Ok bs -> length bs = length l.
Proof.
  revert bs; induction l as [|a l IH]; simpl; intros bs H.
  - now inversion H.
  - destruct (f a); simpl in H; [|discriminate].
    destruct (mapM f l) as [bs'|]; simpl in H; [|discriminate].
    inversion H; subst; simpl. now rewrite (IH bs').
Qed.

(** Reading three sequences of equal length at the indices of [range]
    yields their zip. *)
Lemma mapM_index3 (l1 l2 l3 : list R) :
  length l2 = length l1 -> length l3 = length l1 ->
  mapM (fun i => a <- index l1 i ;; b <- index l2 i ;; d <- index l3 i ;;
                 Ok (a, b, d))
       (seq 0 (length l1))
  = Ok (combine (combine l1 l2) l3).
Proof.
  revert l2 l3; induction l1 as [|a l1 IH]; intros [|b l2] [|d l3];
    simpl; try discriminate; auto.
  intros H2 H3. rewrite <- seq_shift, mapM_map.
  unfold index at 1 2 3; simpl.
  erewrite mapM_ext; [rewrite (IH l2 l3) by lia; reflexivity|].
  intros i _. reflexivity.
Qed.

Lemma map_snd_combine_le {A B : Type} (l1 : list A) (l2 : list B) :
  (length l2 <= length l1)%nat -> map snd (combine l1 l2) = l2.
Proof.
  revert l2; induction l1 as [|a l1 IH]; intros [|b l2]; simpl; intros H;
    try reflexivity; try lia.
  rewrite IH by lia. reflexivity.
Qed.

(** ** Single head: [forward] returns, fibre by fibre *)

Lemma softmax_length w : length (softmax w) = length w.
Proof. unfold softmax. apply length_map. Qed.

Lemma normalized_weights_length m :
  length (normalized_weights m) = length (weights m).
Proof.
  unfold normalized_weights. destruct (weights_is_parameter m); auto.
  apply softmax_length.
Qed.

Lemma components_wf m :
  wf_GAA m ->
  components m =
  Ok (combine (combine (mean_offsets m) (c m)) (normalized_weights m)).
Proof.
  intros (Hg & Ho & Hc & Hw).
  unfold components, range, component_at.
  replace (Z.to_nat (num_gaussians m)) with (length (mean_offsets m)) by lia.
  apply mapM_index3.
  - lia.
  - rewrite normalized_weights_length. lia.
Qed.

Lemma components_wf_length m comps :
  wf_GAA m -> components m = Ok comps ->
  length comps = Z.to_nat (num_gaussians m) /\ comps <> [].
Proof.
  intros Hwf Hc. pose proof Hwf as (Hg & Ho & Hcc & Hw).
  unfold components in Hc. apply mapM_length in Hc.
  unfold range in Hc. rewrite length_seq in Hc. split; [exact Hc|].
  intro; subst comps. simpl in Hc. lia.
Qed.

Lemma forward_wf m x :
  wf_GAA m ->
  exists comps,
    components m = Ok comps /\ comps <> [] /\
    forward m x = Ok {| extent := extent x;
                        fibres := map (fibre_forward m comps) (fibres x) |}.
Proof.
  intros Hwf. pose proof (components_wf m Hwf) as Hc.
  destruct (components_wf_length m _ Hwf Hc) as [_ Hne].
  eexists; split; [exact Hc|]. split; [exact Hne|].
  unfold forward. rewrite Hc. simpl.
  destruct (combine _ _); [contradiction|reflexivity].
Qed.

Lemma mixture_length m comps x : length (mixture m comps x) = length x.
Proof.
  unfold mixture.
  assert (H : forall acc, length acc = length x ->
            length (fold_left (mixture_step (stat_mean m x) (stat_var m x) x)
                              comps acc) = length x).
  { induction comps as [|cp comps IH]; intros acc Hacc; simpl; [exact Hacc|].
    apply IH. destruct cp as [[off ci] wi]. unfold mixture_step, gaussian.
    rewrite map2_length, !length_map. lia. }
  apply H. unfold zeros_like. apply length_map.
Qed.

Lemma y_transform_length m comps x : length (y_transform m comps x) = length x.
Proof. unfold y_transform. rewrite length_map. apply mixture_length. Qed.

Lemma fibre_forward_length m comps x :
  length (fibre_forward m comps x) = length x.
Proof.
  unfold fibre_forward. destruct (padding_value m) as [p|].
  - rewrite where_length.
    + rewrite map2_length, y_transform_length. lia.
    + unfold mask. rewrite length_map, map2_length, y_transform_length. lia.
    + rewrite map2_length, y_transform_length. lia.
  - rewrite map2_length, y_transform_length. lia.
Qed.

(** ** Padding passes through *)

Lemma Rneb_true a b : a <> b -> Rneb a b = true.
Proof. unfold Rneb. destruct (Req_dec_T a b); [contradiction|reflexivity]. Qed.

Lemma Rneb_false a b : a = b -> Rneb a b = false.
Proof. unfold Rneb. destruct (Req_dec_T a b); [reflexivity|contradiction]. Qed.

(** C1: with a padding value [p] configured, [forward] returns a tensor of
    the input's shape in which every position holding [p] carries the input
    value itself, and every other position carries the input value times the
    transform at that position. *)
Theorem padding_passthrough m p x :
  wf_GAA m -> padding_value m = Some p ->
  exists comps y,
    components m = Ok comps /\ forward m x = Ok y /\
    extent y = extent x /\ length (fibres y) = length (fibres x) /\
    forall k f, nth_error (fibres x) k = Some f ->
      exists g, nth_error (fibres y) k = Some g /\ length g = length f /\
        forall j v, nth_error f j = Some v ->
          exists t, nth_error (y_transform m comps f) j = Some t /\
            (v = p -> nth_error g j = Some v) /\
            (v <> p -> nth_error g j = Some (v * t)).
Proof.
  intros Hwf Hp.
  destruct (forward_wf m x Hwf) as (comps & Hc & _ & Hf).
  exists comps. eexists. split; [exact Hc|]. split; [exact Hf|].
  simpl. split; [reflexivity|]. split; [apply length_map|].
  intros k f Hk. exists (fibre_forward m comps f).
  split; [now apply map_nth_error|].
  split; [apply fibre_forward_length|].
  intros j v Hj.
  assert (Hlt : (j < length (y_transform m comps f))%nat).
  { rewrite y_transform_length. apply nth_error_Some. congruence. }
  destruct (nth_error (y_transform m comps f) j) as [t|] eqn:Ht;
    [|apply nth_error_None in Ht; lia].
  exists t. split; [reflexivity|].
  unfold fibre_forward. rewrite Hp.
  assert (Hlen : length (map2 Rmult f (y_transform m comps f)) = length f).
  { rewrite map2_length, y_transform_length. lia. }
  rewrite nth_error_where.
  2:{ unfold mask. now rewrite length_map, Hlen. }
  2:{ now rewrite Hlen. }
  unfold mask. rewrite nth_error_map, Hj, nth_error_map2, Hj, Ht. simpl.
  split; intros Hv.
  - now rewrite (Rneb_false _ _ Hv).
  - now rewrite (Rneb_true _ _ Hv).
Qed.

Lemma padding_passthrough_witness :
  wf_GAA gaa_pad /\ padding_value gaa_pad = Some (-1) /\
  exists y, forward gaa_pad (mkTensor 3 [[2; 4; -1]]) = Ok y /\
            exists g, nth_error (fibres y) 0 = Some g /\
                      nth_error g 2 = Some (-1).
Proof.
  assert (Hwf : wf_GAA gaa_pad) by (unfold wf_GAA; simpl; lia).
  split; [exact Hwf|]. split; [reflexivity|].
  destruct (padding_passthrough gaa_pad (-1) (mkTensor 3 [[2; 4; -1]])
              Hwf eq_refl) as (comps & y & _ & Hf & _ & _ & Hpos).
  exists y. split; [exact Hf|].
  destruct (Hpos 0%nat [2; 4; -1] eq_refl) as (g & Hg & _ & Hj).
  exists g. split; [exact Hg|].
  destruct (Hj 2%nat (-1) eq_refl) as (t & _ & Heq & _).
  now apply Heq.
Defined.

(** ** Learnable weights are softmax-normalised *)

Lemma sum_exp_pos w : w <> [] -> 0 < sum_list (map exp w).
Proof.
  intros Hne. apply sum_list_pos.
  - destruct w; [contradiction|discriminate].
  - apply Forall_map, Forall_forall. intros v _. apply exp_pos.
Qed.



(** ** Statistics under a padding value *)

Ltac Rneb_eval :=
  repeat match goal with
         | |- context [Rneb ?a ?b] =>
             first [ rewrite (Rneb_true a b) by lra
                   | rewrite (Rneb_false a b) by lra ]
         end.

Lemma x_masked_padding m p f :
  padding_value m = Some p ->
  x_masked m f = map (fun v => if Rneb v p then v else 0) f.
Proof.
  intros Hp. unfold x_masked. rewrite Hp.
  unfold where_, mask, zeros_like.
  induction f as [|v f IH]; simpl; [reflexivity|].
  rewrite IH. reflexivity.
Qed.

Lemma sum_list_zeroed p f :
  sum_list (map (fun v => if Rneb v p then v else 0) f) = sum_list (nonpad p f).
Proof.
  unfold nonpad. induction f as [|v f IH]; simpl; [reflexivity|].
  destruct (Rneb v p); simpl; rewrite IH; lra.
Qed.

Lemma sum_sq_dev_zeroed p mu f :
  sum_list (map (fun v => (v - mu) ^ 2)
                (map (fun v => if Rneb v p then v else 0) f))
  = sum_list (map (fun v => (v - mu) ^ 2) (nonpad p f))
    + INR (padcount p f) * mu ^ 2.
Proof.
  unfold nonpad, padcount. induction f as [|v f IH].
  - simpl. lra.
  - cbn [map filter]. destruct (Rneb v p); cbn [negb map length];
      rewrite !sum_list_cons, IH; [lra|].
    rewrite S_INR. lra.
Qed.

(** C2, as the code has it: with a padding value configured the statistics
    are those of the whole fibre with its padding positions set to zero.
    The zeroed positions still count in the number of elements: the mean is
    the sum of the non-padding elements over the full extent, and each
    padding position adds the squared mean to the sum of squared
    deviations. *)
Theorem stats_over_zeroed_padding m p f :
  padding_value m = Some p ->
  x_masked m f = map (fun v => if Rneb v p then v else 0) f /\
  stat_mean m f = sum_list (nonpad p f) / INR (length f) /\
  stat_var m f =
    (sum_list (map (fun v => (v - stat_mean m f) ^ 2) (nonpad p f))
     + INR (padcount p f) * stat_mean m f ^ 2) / INR (length f - 1) + eps m.
Proof.
  intros Hp. pose proof (x_masked_padding m p f Hp) as Hx.
  split; [exact Hx|]. split.
  - unfold stat_mean, fmean. rewrite Hx, sum_list_zeroed, length_map.
    reflexivity.
  - unfold stat_var, fvar. fold (stat_mean m f).
    rewrite Hx at 1 2. rewrite sum_sq_dev_zeroed, length_map. reflexivity.
Qed.

Lemma stats_over_zeroed_padding_witness :
  padding_value gaa_pad = Some (-1) /\
  stat_mean gaa_pad [2; 4; -1]
  = sum_list (nonpad (-1) [2; 4; -1]) / INR 3.
Proof.
  split; [reflexivity|].
  exact (proj1 (proj2 (stats_over_zeroed_padding gaa_pad (-1) [2; 4; -1]
                                                 eq_refl))).
Defined.

(** C2, as stated, fails: on the fibre [2, 4, -1] with padding value [-1]
    the code's mean is [2] and its variance [4 + eps], while the
    non-padding elements [2, 4] have mean [3] and variance [2]. *)
Lemma stats_exclude_padding_counterexample :
  padding_value gaa_pad = Some (-1) /\
  stat_mean gaa_pad [2; 4; -1] = 2 /\
  fmean (nonpad (-1) [2; 4; -1]) = 3 /\
  stat_mean gaa_pad [2; 4; -1] <> fmean (nonpad (-1) [2; 4; -1]) /\
  stat_var gaa_pad [2; 4; -1]
  <> fvar (nonpad (-1) [2; 4; -1]) + eps gaa_pad.
Proof.
  assert (Hx : x_masked gaa_pad [2; 4; -1] = [2; 4; 0]).
  { rewrite (x_masked_padding gaa_pad (-1)) by reflexivity.
    simpl. Rneb_eval. reflexivity. }
  assert (Hn : nonpad (-1) [2; 4; -1] = [2; 4]).
  { unfold nonpad. simpl. Rneb_eval. reflexivity. }
  assert (Hm : stat_mean gaa_pad [2; 4; -1] = 2).
  { unfold stat_mean. rewrite Hx. unfold fmean. simpl. lra. }
  assert (Hm' : fmean (nonpad (-1) [2; 4; -1]) = 3).
  { rewrite Hn. unfold fmean. simpl. lra. }
  split; [reflexivity|]. split; [exact Hm|]. split; [exact Hm'|]. split.
  - rewrite Hm, Hm'. lra.
  - unfold stat_var. rewrite Hx, Hn. unfold fvar.
    replace (fmean [2; 4; 0]) with 2 by (unfold fmean; simpl; lra).
    replace (fmean [2; 4]) with 3 by (unfold fmean; simpl; lra).
    simpl. lra.
Qed.

(** ** The concrete scenario [1, 2, 3, 4] *)

Lemma exp_gauss_sym a b s k :
  a = - b -> exp (- (a / s) ^ 2 / k) = exp (- (b / s) ^ 2 / k).
Proof. intros ->. f_equal. unfold Rdiv. ring. Qed.

Lemma exp_gauss_lt a b s k :
  0 < s -> 0 < k -> a ^ 2 < b ^ 2 ->
  exp (- (b / s) ^ 2 / k) < exp (- (a / s) ^ 2 / k).
Proof.
  intros Hs Hk Hab. apply exp_increasing.
  assert (Hsq : (a / s) ^ 2 < (b / s) ^ 2).
  { unfold Rdiv. rewrite !Rpow_mult_distr.
    apply Rmult_lt_compat_r; [|exact Hab].
    apply pow_lt, Rinv_0_lt_compat, Hs. }
  unfold Rdiv at 1 3.
  apply Rmult_lt_compat_r; [apply Rinv_0_lt_compat, Hk | lra].
Qed.

Lemma scenario_stats e :
  stat_mean (gaa_scenario e) x_scenario = 5 / 2 /\
  stat_var (gaa_scenario e) x_scenario = 5 / 3 + e.
Proof.
  assert (Hm : stat_mean (gaa_scenario e) x_scenario = 5 / 2).
  { unfold stat_mean, x_masked, fmean, x_scenario. simpl. lra. }
  split; [exact Hm|].
  unfold stat_var, fvar. fold (stat_mean (gaa_scenario e) x_scenario).
  rewrite Hm. unfold x_masked, x_scenario. simpl. field.
Qed.

Lemma scenario_components e :
  components (gaa_scenario e) = Ok [(0, 2, exp 1 / sum_list [exp 1])].
Proof.
  rewrite components_wf by (unfold wf_GAA; simpl; lia). reflexivity.
Qed.

(** C3, as the code has it: on [1, 2, 3, 4] with one Gaussian of offset [0]
    and scale [2], a uniform learnable weight and no padding, the mean is
    [2.5], the variance is the unbiased [5/3] plus [eps], and the output is
    the input scaled by a transform that is symmetric about the centre,
    largest at the two central values and strictly smaller, yet positive, at
    the extremes [1] and [4]. *)
Theorem scenario_mean_variance_bell e :
  0 < e ->
  stat_mean (gaa_scenario e) x_scenario = 5 / 2 /\
  stat_var (gaa_scenario e) x_scenario = 5 / 3 + e /\
  exists comps t0 t1,
    components (gaa_scenario e) = Ok comps /\
    y_transform (gaa_scenario e) comps x_scenario = [t0; t1; t1; t0] /\
    0 < t0 /\ t0 < t1 /\
    forward (gaa_scenario e) (mkTensor 4 [x_scenario])
    = Ok (mkTensor 4 [[1 * t0; 2 * t1; 3 * t1; 4 * t0]]).
Proof.
  intros He. destruct (scenario_stats e) as [Hm Hv].
  split; [exact Hm|]. split; [exact Hv|].
  assert (Hs : 0 < sqrt (5 / 3 + e)) by (apply sqrt_lt_R0; lra).
  assert (Hw : 0 < exp 1 / sum_list [exp 1]).
  { apply Rdiv_lt_0_compat; [apply exp_pos|].
    simpl. pose proof (exp_pos 1). lra. }
  assert (Hy : exists t0 t1,
             y_transform (gaa_scenario e)
               [(0, 2, exp 1 / sum_list [exp 1])] x_scenario
             = [t0; t1; t1; t0] /\ 0 < t0 /\ t0 < t1).
  { unfold y_transform, total, mixture. rewrite Hm, Hv.
    cbn [fold_left mixture_step gaussian x_scenario zeros_like map map2
         eps gaa_scenario].
    match goal with |- context [Rmax ?S e] => set (T := Rmax S e) end.
    assert (HT : 0 < T).
    { unfold T. eapply Rlt_le_trans; [exact He | apply Rmax_r]. }
    clearbody T.
    replace (exp (- ((3 - (5 / 2 + 0)) / sqrt (5 / 3 + e)) ^ 2 / (2 * 2 ^ 2)))
      with (exp (- ((2 - (5 / 2 + 0)) / sqrt (5 / 3 + e)) ^ 2 / (2 * 2 ^ 2)))
      by (apply exp_gauss_sym; lra).
    replace (exp (- ((4 - (5 / 2 + 0)) / sqrt (5 / 3 + e)) ^ 2 / (2 * 2 ^ 2)))
      with (exp (- ((1 - (5 / 2 + 0)) / sqrt (5 / 3 + e)) ^ 2 / (2 * 2 ^ 2)))
      by (apply exp_gauss_sym; lra).
    eexists. eexists. split; [reflexivity|].
    set (w := exp 1 / sum_list [exp 1]) in *.
    pose proof (exp_pos (- ((1 - (5 / 2 + 0)) / sqrt (5 / 3 + e)) ^ 2
                         / (2 * 2 ^ 2))) as Hg0.
    pose proof (exp_gauss_lt (2 - (5 / 2 + 0)) (1 - (5 / 2 + 0))
                  (sqrt (5 / 3 + e)) (2 * 2 ^ 2) Hs) as Hlt.
    assert (Hg : exp (- ((1 - (5 / 2 + 0)) / sqrt (5 / 3 + e)) ^ 2
                      / (2 * 2 ^ 2))
                 < exp (- ((2 - (5 / 2 + 0)) / sqrt (5 / 3 + e)) ^ 2
                        / (2 * 2 ^ 2))) by (apply Hlt; lra).
    split.
    - apply Rdiv_lt_0_compat; [|exact HT].
      rewrite Rplus_0_l. apply Rmult_lt_0_compat; assumption.
    - unfold Rdiv at 1 4. apply Rmult_lt_compat_r.
      + apply Rinv_0_lt_compat, HT.
      + rewrite !Rplus_0_l. apply Rmult_lt_compat_l; assumption. }
  destruct Hy as (t0 & t1 & Hy & Ht0 & Ht1).
  exists [(0, 2, exp 1 / sum_list [exp 1])], t0, t1.
  split; [apply scenario_components|]. split; [exact Hy|].
  split; [exact Ht0|]. split; [exact Ht1|].
  unfold forward. rewrite scenario_components.
  cbn [bind extent fibres map]. unfold fibre_forward.
  cbn [padding_value gaa_scenario]. rewrite Hy. reflexivity.
Qed.

Lemma scenario_mean_variance_bell_witness :
  0 < / 100000000 /\
  stat_mean (gaa_scenario (/ 100000000)) x_scenario = 5 / 2 /\
  stat_var (gaa_scenario (/ 100000000)) x_scenario = 5 / 3 + / 100000000.
Proof.
  assert (He : 0 < / 100000000) by lra.
  split; [exact He|].
  destruct (scenario_mean_variance_bell (/ 100000000) He) as (Hm & Hv & _).
  split; [exact Hm | exact Hv].
Defined.

(** C3, as stated, fails: the variance the code computes differs from
    [1.25 + eps] by [5/12]. *)
Lemma scenario_variance_counterexample :
  stat_var (gaa_scenario (/ 100000000)) x_scenario - (5 / 4 + / 100000000)
  = 5 / 12 /\
  ~ Rabs (stat_var (gaa_scenario (/ 100000000)) x_scenario
          - (5 / 4 + / 100000000)) <= / 10.
Proof.
  destruct (scenario_stats (/ 100000000)) as [_ Hv].
  rewrite Hv. split; [lra|].
  replace (5 / 3 + / 100000000 - (5 / 4 + / 100000000)) with (5 / 12) by lra.
  rewrite Rabs_pos_eq by lra. lra.
Qed.

(** ** The transform along a fibre *)

Lemma x_masked_length m (x : fibre) : length (x_masked m x) = length x.
Proof.
  unfold x_masked. destruct (padding_value m) as [p|]; [|reflexivity].
  apply where_length; unfold mask, zeros_like; now rewrite length_map.
Qed.

Lemma sum_nan_Some l : sum_nan (map Some l) = Some (sum_list l).
Proof.
  induction l as [|a l IH]; [reflexivity|].
  cbn [map sum_nan]. rewrite IH. reflexivity.
Qed.

(** C9, as the code has it: for a head with a positive [eps] and non-zero
    scales, along every fibre of at least two entries the transform consists
    of real numbers and sums to the mixture sum divided by its clamp: to one
    when the mixture sum is at least [eps], and to the mixture sum divided
    by [eps], which is less than one, when it is below [eps].  On a fibre of
    a single entry the variance is [nan], and so are the entry of the
    transform and its sum. *)
Theorem transform_sum m comps f :
  wf_GAA m -> components m = Ok comps ->
  0 < eps m -> Forall (fun ci => ci <> 0) (c m) ->
  ((2 <= length f)%nat ->
   torch_y_transform m comps f = map Some (y_transform m comps f) /\
   (eps m <= sum_list (mixture m comps f) ->
    sum_nan (torch_y_transform m comps f) = Some 1) /\
   (sum_list (mixture m comps f) < eps m ->
    sum_nan (torch_y_transform m comps f)
    = Some (sum_list (mixture m comps f) / eps m) /\
    sum_list (mixture m comps f) / eps m < 1)) /\
  (length f = 1%nat ->
   torch_y_transform m comps f = [None] /\
   sum_nan (torch_y_transform m comps f) = None).
Proof.
  intros _ _ He _. split.
  - intros Hl.
    assert (Ht : torch_y_transform m comps f
                 = map Some (y_transform m comps f)).
    { unfold torch_y_transform, var_is_nan. rewrite x_masked_length.
      destruct (length f <? 2)%nat eqn:E; [apply Nat.ltb_lt in E; lia|].
      reflexivity. }
    split; [exact Ht|]. rewrite Ht, sum_nan_Some.
    unfold y_transform, total. rewrite sum_list_div.
    set (S := sum_list (mixture m comps f)). split; intros HS.
    + rewrite Rmax_left by exact HS. f_equal. field. lra.
    + rewrite Rmax_right by lra. split; [reflexivity|].
      apply Rmult_lt_reg_r with (eps m); [exact He|].
      unfold Rdiv. rewrite Rmult_assoc, Rinv_l by lra. lra.
  - intros Hl.
    assert (Ht : torch_y_transform m comps f = [None]).
    { unfold torch_y_transform, var_is_nan. rewrite x_masked_length, Hl.
      destruct f as [|a [|b f]]; try discriminate. reflexivity. }
    split; [exact Ht|]. rewrite Ht. reflexivity.
Qed.

Lemma scenario_mixture_sum e :
  0 < e <= / 2 ->
  e <= sum_list (mixture (gaa_scenario e)
                         [(0, 2, exp 1 / sum_list [exp 1])] x_scenario).
Proof.
  intros [He0 He1]. destruct (scenario_stats e) as [Hm Hv].
  unfold mixture. rewrite Hm, Hv.
  cbn [fold_left mixture_step gaussian x_scenario zeros_like map map2].
  assert (Hw : exp 1 / sum_list [exp 1] = 1).
  { cbn [sum_list fold_right]. pose proof (exp_pos 1). field. lra. }
  rewrite Hw.
  assert (Hs : 1 <= sqrt (5 / 3 + e)).
  { rewrite <- sqrt_1. apply sqrt_le_1_alt. lra. }
  assert (Hi : 0 < / sqrt (5 / 3 + e) <= 1).
  { split; [apply Rinv_0_lt_compat; lra|].
    rewrite <- Rinv_1. apply Rinv_le_contravar; lra. }
  assert (Hsq : ((2 - (5 / 2 + 0)) / sqrt (5 / 3 + e)) ^ 2 <= / 4).
  { unfold Rdiv. rewrite Rpow_mult_distr.
    assert ((/ sqrt (5 / 3 + e)) ^ 2 <= 1) by nra.
    nra. }
  pose proof (exp_ineq1_le
                (- ((2 - (5 / 2 + 0)) / sqrt (5 / 3 + e)) ^ 2 / (2 * 2 ^ 2)))
    as Hexp.
  pose proof (exp_pos
                (- ((1 - (5 / 2 + 0)) / sqrt (5 / 3 + e)) ^ 2 / (2 * 2 ^ 2))).
  pose proof (exp_pos
                (- ((3 - (5 / 2 + 0)) / sqrt (5 / 3 + e)) ^ 2 / (2 * 2 ^ 2))).
  pose proof (exp_pos
                (- ((4 - (5 / 2 + 0)) / sqrt (5 / 3 + e)) ^ 2 / (2 * 2 ^ 2))).
  cbn [sum_list fold_right]. lra.
Qed.

Lemma transform_sum_witness :
  wf_GAA (gaa_scenario (/ 100000000)) /\
  components (gaa_scenario (/ 100000000))
  = Ok [(0, 2, exp 1 / sum_list [exp 1])] /\
  0 < eps (gaa_scenario (/ 100000000)) /\
  Forall (fun ci => ci <> 0) (c (gaa_scenario (/ 100000000))) /\
  (2 <= length x_scenario)%nat /\
  eps (gaa_scenario (/ 100000000))
  <= sum_list (mixture (gaa_scenario (/ 100000000))
                       [(0, 2, exp 1 / sum_list [exp 1])] x_scenario) /\
  sum_nan (torch_y_transform (gaa_scenario (/ 100000000))
                             [(0, 2, exp 1 / sum_list [exp 1])] x_scenario)
  = Some 1.
Proof.
  assert (Hwf : wf_GAA (gaa_scenario (/ 100000000)))
    by (unfold wf_GAA; simpl; lia).
  assert (He : 0 < eps (gaa_scenario (/ 100000000))) by (simpl; lra).
  assert (Hl : (2 <= length x_scenario)%nat) by (simpl; lia).
  assert (Hc : Forall (fun ci => ci <> 0) (c (gaa_scenario (/ 100000000)))).
  { simpl. constructor; [lra | constructor]. }
  assert (HS : eps (gaa_scenario (/ 100000000))
               <= sum_list (mixture (gaa_scenario (/ 100000000))
                              [(0, 2, exp 1 / sum_list [exp 1])] x_scenario)).
  { apply scenario_mixture_sum. lra. }
  split; [exact Hwf|]. split; [apply scenario_components|].
  split; [exact He|]. split; [exact Hc|]. split; [exact Hl|].
  split; [exact HS|].
  exact (proj1 (proj2 (proj1 (transform_sum _ _ x_scenario Hwf
                                (scenario_components (/ 100000000)) He Hc)
                             Hl))
               HS).
Defined.

(** C9, as stated, fails on a fibre of one entry: the unbiased variance of
    [[1]] is [0 / 0], so the single entry of the transform is [nan] and the
    transform's sum is neither one nor a real number below one. *)
Lemma transform_sum_one_entry_counterexample :
  padding_value (gaa_scenario (/ 100000000)) = None /\
  components (gaa_scenario (/ 100000000))
  = Ok [(0, 2, exp 1 / sum_list [exp 1])] /\
  var_is_nan (x_masked (gaa_scenario (/ 100000000)) [1]) = true /\
  torch_y_transform (gaa_scenario (/ 100000000))
                    [(0, 2, exp 1 / sum_list [exp 1])] [1] = [None] /\
  sum_nan (torch_y_transform (gaa_scenario (/ 100000000))
                             [(0, 2, exp 1 / sum_list [exp 1])] [1])
  <> Some 1 /\
  forall s, sum_nan (torch_y_transform (gaa_scenario (/ 100000000))
                       [(0, 2, exp 1 / sum_list [exp 1])] [1]) <> Some s.
Proof.
  split; [reflexivity|]. split; [apply scenario_components|].
  split; [reflexivity|]. split; [reflexivity|].
  split; [discriminate|]. intros s. discriminate.
Qed.

(** ** Construction *)

Lemma torch_full_ok n v :
  (0 <= n)%Z -> torch_full n v = Ok (repeat v (Z.to_nat n)).
Proof.
  intros Hn. unfold torch_full.
  destruct (n <? 0)%Z eqn:E; [apply Z.ltb_lt in E; lia | reflexivity].
Qed.

(** C8: an explicit scale sequence whose length differs from
    [num_gaussians] makes the constructor raise [ValueError], whatever the
    other arguments; with a sequence of length [num_gaussians] and a weights
    argument that is [True] or a tensor of length [num_gaussians], the
    constructor returns a module whose scales are that sequence. *)
Theorem init_scale_length na G cs e lw pv :
  (0 <= G)%Z ->
  (Z.of_nat (length cs) <> G ->
   GAA_init na G (TensorC cs) e lw pv = Raise ValueError) /\
  (Z.of_nat (length cs) = G ->
   lw = PyBool true \/
   (exists p ws, lw = PyTensor p ws /\ Z.of_nat (length ws) = G) ->
   exists m, GAA_init na G (TensorC cs) e lw pv = Ok m /\
             c m = cs /\ num_gaussians m = G).
Proof.
  intros HG. unfold GAA_init, torch_zeros, torch_ones.
  rewrite !torch_full_ok by exact HG. cbn [bind]. split.
  - intros Hne. apply Z.eqb_neq in Hne. rewrite Hne. reflexivity.
  - intros Heq Hlw. apply Z.eqb_eq in Heq. rewrite Heq. cbn [negb bind].
    destruct Hlw as [-> | (p & ws & -> & Hws)].
    + cbn [bind]. eexists. split; [reflexivity|]. split; reflexivity.
    + apply Z.eqb_eq in Hws. rewrite Hws. cbn [negb bind].
      eexists. split; [reflexivity|]. split; reflexivity.
Qed.

Lemma init_scale_length_witness :
  (0 <= 2)%Z /\
  GAA_init 0 2 (TensorC [1; 2; 3]) (/ 100000000) (PyBool true) None
  = Raise ValueError /\
  exists m, GAA_init 0 2 (TensorC [1; 3]) (/ 100000000) (PyBool true) None
            = Ok m /\ c m = [1; 3] /\ num_gaussians m = 2%Z.
Proof.
  assert (HG : (0 <= 2)%Z) by lia.
  split; [exact HG|]. split.
  - apply (proj1 (init_scale_length 0 2 [1; 2; 3] (/ 100000000)
                                    (PyBool true) None HG)).
    simpl. lia.
  - apply (proj2 (init_scale_length 0 2 [1; 3] (/ 100000000)
                                    (PyBool true) None HG)).
    + reflexivity.
    + left. reflexivity.
Defined.

Lemma init_scale_ok G ic :
  (0 <= G)%Z -> scale_ok G ic ->
  exists cs,
    match ic with
    | TensorC cs =>
        if negb (Z.of_nat (length cs) =? G)%Z then Raise ValueError else Ok cs
    | ScalarC v => torch_full G v
    end = Ok cs.
Proof.
  intros HG Hic. destruct ic as [v|cs]; simpl in Hic.
  - eexists. apply torch_full_ok, HG.
  - apply Z.eqb_eq in Hic. rewrite Hic. eexists. reflexivity.
Qed.

(** C10: with a scale argument that passes its own check, the boolean
    [False] and every object that is neither [True] nor a tensor raise
    [TypeError], and a tensor whose length differs from [num_gaussians]
    raises [ValueError]; so whenever the constructor returns, the argument
    was [True] or a tensor of length [num_gaussians], and the constructor
    creates its own learnable weights (all ones, an [nn.Parameter]) for
    [True] and for no other argument. *)
Theorem init_weights_mode na G ic e pv :
  (0 <= G)%Z -> scale_ok G ic ->
  GAA_init na G ic e (PyBool false) pv = Raise TypeError /\
  GAA_init na G ic e PyOther pv = Raise TypeError /\
  (forall p ws, Z.of_nat (length ws) <> G ->
                GAA_init na G ic e (PyTensor p ws) pv = Raise ValueError) /\
  (exists m, GAA_init na G ic e (PyBool true) pv = Ok m /\
             weights_is_parameter m = true /\
             weights m = repeat 1 (Z.to_nat G)) /\
  (forall lw m, GAA_init na G ic e lw pv = Ok m ->
     lw = PyBool true \/
     exists p ws, lw = PyTensor p ws /\ Z.of_nat (length ws) = G /\
                  weights_is_parameter m = p /\ weights m = ws).
Proof.
  intros HG Hic. destruct (init_scale_ok G ic HG Hic) as [cs Hcs].
  unfold GAA_init, torch_zeros, torch_ones.
  rewrite !torch_full_ok by exact HG. cbn [bind]. rewrite Hcs. cbn [bind].
  split; [reflexivity|]. split; [reflexivity|]. split; [|split].
  - intros p ws Hne. apply Z.eqb_neq in Hne. rewrite Hne. reflexivity.
  - eexists. split; [reflexivity|]. split; reflexivity.
  - intros lw m H. destruct lw as [[|]|p ws|]; cbn [bind] in H;
      try discriminate; [left; reflexivity|].
    right. exists p, ws.
    destruct (Z.of_nat (length ws) =? G)%Z eqn:E; cbn [negb bind] in H;
      [|discriminate].
    apply Z.eqb_eq in E. inversion H; subst m; cbn.
    split; [reflexivity|]. split; [exact E|]. split; reflexivity.
Qed.

Lemma init_weights_mode_witness :
  (0 <= 2)%Z /\ scale_ok 2 (ScalarC 2) /\
  GAA_init 0 2 (ScalarC 2) (/ 100000000) (PyBool false) None
  = Raise TypeError.
Proof.
  assert (HG : (0 <= 2)%Z) by lia.
  split; [exact HG|]. split; [exact I|].
  exact (proj1 (init_weights_mode 0 2 (ScalarC 2) (/ 100000000) None HG I)).
Defined.

(** The constructors establish the invariants. *)
Lemma GAA_init_wf na G ic e lw pv m :
  (1 <= G)%Z -> GAA_init na G ic e lw pv = Ok m -> wf_GAA m.
Proof.
  intros HG. unfold GAA_init, torch_zeros, torch_ones.
  rewrite !torch_full_ok by lia. cbn [bind].
  assert (Hrep : forall v : R, Z.of_nat (length (repeat v (Z.to_nat G))) = G).
  { intros v. rewrite repeat_length. lia. }
  destruct ic as [v|cs].
  - rewrite torch_full_ok by lia. cbn [bind].
    destruct lw as [[|]|p ws|]; cbn [bind]; try discriminate.
    + intros H. inversion H; subst m. unfold wf_GAA; cbn.
      rewrite !Hrep. lia.
    + destruct (Z.of_nat (length ws) =? G)%Z eqn:E; cbn [negb bind];
        [|discriminate].
      apply Z.eqb_eq in E. intros H. inversion H; subst m.
      unfold wf_GAA; cbn. rewrite !Hrep. lia.
  - destruct (Z.of_nat (length cs) =? G)%Z eqn:Ec; cbn [negb bind];
      [|discriminate].
    apply Z.eqb_eq in Ec.
    destruct lw as [[|]|p ws|]; cbn [bind]; try discriminate.
    + intros H. inversion H; subst m. unfold wf_GAA; cbn.
      rewrite !Hrep. lia.
    + destruct (Z.of_nat (length ws) =? G)%Z eqn:E; cbn [negb bind];
        [|discriminate].
      apply Z.eqb_eq in E. intros H. inversion H; subst m.
      unfold wf_GAA; cbn. rewrite !Hrep. lia.
Qed.

Lemma mapM_Forall {A B : Type} (f : A -> result B) (P : B -> Prop) l bs :
  (forall a b, In a l -> f a = Ok b -> P b) ->
  mapM f l = Ok bs -> Forall P bs.
Proof.
  revert bs; induction l as [|a l IH]; simpl; intros bs HP H.
  - inversion H. constructor.
  - destruct (f a) as [b|] eqn:Hb; simpl in H; [|discriminate].
    destruct (mapM f l) as [bs'|]; simpl in H; [|discriminate].
    inversion H; subst. constructor; [eapply HP; eauto | apply IH; auto].
    intros a' b' Hin. apply HP. now right.
Qed.

Lemma MH_init_wf na H G iv lw pv e m :
  (1 <= G)%Z -> MH_init na H G iv lw pv e = Ok m -> wf_MH m.
Proof.
  intros HG. unfold MH_init.
  destruct (mapM _ (range H)) as [heads|] eqn:Hm; cbn [bind]; [|discriminate].
  intros Hok. inversion Hok; subst m. unfold wf_MH; cbn. split.
  - apply mapM_length in Hm. rewrite Hm. unfold range.
    rewrite length_seq. lia.
  - eapply mapM_Forall; [|exact Hm].
    intros i h _ Hh. exact (GAA_init_wf _ _ _ _ _ _ _ HG Hh).
Qed.

(** ** Multi-head: errors at call entry *)

(** C7: when [extent // num_heads] is zero, [forward] raises [ValueError]
    with no head called and no output; this is the case whenever
    [num_heads] exceeds the extent. *)
Theorem zero_chunk_raises m x :
  (floordiv (Z.of_nat (extent x)) (num_heads m) = Ok 0%Z ->
   MH_forward_traced m x = ([], Raise ValueError) /\
   MH_forward m x = Raise ValueError) /\
  ((Z.of_nat (extent x) < num_heads m)%Z ->
   MH_forward_traced m x = ([], Raise ValueError) /\
   MH_forward m x = Raise ValueError).
Proof.
  assert (H0 : floordiv (Z.of_nat (extent x)) (num_heads m) = Ok 0%Z ->
               MH_forward_traced m x = ([], Raise ValueError) /\
               MH_forward m x = Raise ValueError).
  { intros Hd. unfold MH_forward, MH_forward_traced. rewrite Hd. cbn.
    split; reflexivity. }
  split; [exact H0|].
  intros Hlt. apply H0. unfold floordiv.
  destruct (num_heads m =? 0)%Z eqn:E; [apply Z.eqb_eq in E; lia|].
  rewrite Z.div_small by lia. reflexivity.
Qed.

Lemma zero_chunk_raises_witness :
  floordiv (Z.of_nat (extent x_one)) (num_heads mh_two) = Ok 0%Z /\
  (Z.of_nat (extent x_one) < num_heads mh_two)%Z /\
  MH_forward_traced mh_two x_one = ([], Raise ValueError).
Proof.
  assert (Hd : floordiv (Z.of_nat (extent x_one)) (num_heads mh_two)
               = Ok 0%Z) by reflexivity.
  split; [exact Hd|]. split; [simpl; lia|].
  exact (proj1 (proj1 (zero_chunk_raises mh_two x_one) Hd)).
Defined.

(** ** Multi-head: slices, heads and concatenation *)

Lemma snd_run_heads x ch ihs :
  snd (run_heads x ch ihs)
  = mapM (fun ih => xi <- narrow x (Z.of_nat (fst ih) * ch) ch ;;
                    forward (snd ih) xi) ihs.
Proof.
  induction ihs as [|[i h] ihs IH]; simpl; [reflexivity|].
  destruct (narrow x (Z.of_nat i * ch) ch) as [xi|e]; simpl; [|reflexivity].
  destruct (forward h xi) as [y|e]; simpl; [|reflexivity].
  rewrite <- IH. destruct (run_heads x ch ihs) as [log r]. reflexivity.
Qed.

Lemma MH_forward_unfold m x :
  MH_forward m x =
  ch <- floordiv (Z.of_nat (extent x)) (num_heads m) ;;
  if (ch =? 0)%Z then Raise ValueError
  else
    ys <- mapM (fun ih => xi <- narrow x (Z.of_nat (fst ih) * ch) ch ;;
                          forward (snd ih) xi)
               (enumerate (attention_heads m)) ;;
    cat ys.
Proof.
  unfold MH_forward, MH_forward_traced.
  destruct (floordiv _ _) as [ch|e]; simpl; [|reflexivity].
  destruct (ch =? 0)%Z; [reflexivity|].
  rewrite <- snd_run_heads.
  destruct (run_heads _ _ _) as [log r]. reflexivity.
Qed.

Lemma narrow_chunk x ch i :
  (0 <= ch)%Z -> ((Z.of_nat i + 1) * ch <= Z.of_nat (extent x))%Z ->
  narrow x (Z.of_nat i * ch) ch
  = Ok {| extent := Z.to_nat ch;
          fibres := map (fun f => firstn (Z.to_nat ch)
                                    (skipn (i * Z.to_nat ch) f))
                        (fibres x) |}.
Proof.
  intros Hch Hle. unfold narrow.
  destruct (ch <? 0)%Z eqn:E1; [apply Z.ltb_lt in E1; lia|].
  assert (H0 : (0 <= Z.of_nat i * ch)%Z) by nia.
  assert (H1 : (Z.of_nat i * ch <= Z.of_nat (extent x))%Z) by nia.
  replace (- Z.of_nat (extent x) <=? Z.of_nat i * ch)%Z with true
    by (symmetry; apply Z.leb_le; lia).
  replace (Z.of_nat i * ch <=? Z.of_nat (extent x))%Z with true
    by (symmetry; apply Z.leb_le; lia).
  cbn [andb negb].
  destruct (Z.of_nat i * ch <? 0)%Z eqn:E2; [apply Z.ltb_lt in E2; lia|].
  destruct (Z.of_nat (extent x) - ch <? Z.of_nat i * ch)%Z eqn:E3;
    [apply Z.ltb_lt in E3; lia|].
  rewrite Z2Nat.inj_mul, Nat2Z.id by lia. reflexivity.
Qed.

Lemma in_enumerate {A : Type} (l : list A) i a :
  In (i, a) (enumerate l) -> (i < length l)%nat.
Proof.
  unfold enumerate. intros H. apply in_combine_l in H.
  apply in_seq in H. lia.
Qed.

Lemma enumerate_length {A : Type} (l : list A) :
  length (enumerate l) = length l.
Proof. unfold enumerate. rewrite length_combine, length_seq. lia. Qed.

Lemma mapM_ok_map {A B : Type} (f : A -> result B) (g : A -> B) l :
  (forall a, In a l -> f a = Ok (g a)) -> mapM f l = Ok (map g l).
Proof.
  induction l as [|a l IH]; simpl; intros H; [reflexivity|].
  rewrite (H a) by auto. simpl. rewrite IH by auto. reflexivity.
Qed.

Lemma map_nth_seq {A : Type} (l : list A) d :
  map (fun k => nth k l d) (seq 0 (length l)) = l.
Proof.
  induction l as [|a l IH]; simpl; [reflexivity|].
  rewrite <- seq_shift, map_map. simpl. now rewrite IH.
Qed.

Lemma nth_map2_app (l1 l2 : list fibre) k :
  length l2 = length l1 ->
  nth k (map2 (@app R) l1 l2) [] = nth k l1 [] ++ nth k l2 [].
Proof.
  revert l2 k; induction l1 as [|a l1 IH]; intros [|b l2] [|k]; simpl;
    try discriminate; auto.
Qed.

Lemma cat_fibres_spec ts acc :
  Forall (fun t => length (fibres t) = length acc) ts ->
  cat_fibres ts acc
  = Ok (map (fun k => nth k acc []
                      ++ concat (map (fun t => nth k (fibres t) []) ts))
            (seq 0 (length acc))).
Proof.
  revert acc; induction ts as [|t ts IH]; intros acc Hall; simpl.
  - f_equal. rewrite <- (map_nth_seq acc []) at 1.
    apply map_ext. intros k. now rewrite app_nil_r.
  - inversion Hall as [|? ? Ht Hts]; subst.
    rewrite Ht, Nat.eqb_refl.
    assert (Hlen : length (map2 (@app R) acc (fibres t)) = length acc).
    { rewrite map2_length. lia. }
    rewrite IH.
    + rewrite Hlen. f_equal. apply map_ext. intros k.
      rewrite nth_map2_app by exact Ht. now rewrite app_assoc.
    + rewrite Hlen. exact Hts.
Qed.

(** [torch.cat] computes the concatenation along the axis. *)
Lemma cat_spec ts n :
  ts <> [] -> Forall (fun t => length (fibres t) = n) ts ->
  cat ts = Ok (spec_concat ts n).
Proof.
  intros Hne Hall. destruct ts as [|t ts]; [contradiction|].
  inversion Hall as [|? ? Ht Hts]; subst. unfold cat.
  rewrite cat_fibres_spec by exact Hts. reflexivity.
Qed.

Lemma forward_apply h x :
  wf_GAA h ->
  forward h x = Ok {| extent := extent x;
                      fibres := map (fibre_apply h) (fibres x) |}.
Proof.
  intros Hwf. destruct (forward_wf h x Hwf) as (comps & Hc & _ & Hf).
  rewrite components_wf in Hc by exact Hwf. inversion Hc; subst comps.
  exact Hf.
Qed.

Lemma chunk_bounds E H i :
  (1 <= H)%Z -> (i < Z.to_nat H)%nat ->
  ((Z.of_nat i + 1) * Z.of_nat (E / Z.to_nat H) <= Z.of_nat E)%Z.
Proof.
  intros HH Hi.
  assert (Hn : (Z.to_nat H <> 0)%nat) by lia.
  pose proof (Nat.Div0.mul_div_le E (Z.to_nat H)) as Hle.
  assert (((i + 1) * (E / Z.to_nat H) <= E)%nat) by nia.
  lia.
Qed.

Lemma floordiv_nat E H :
  (1 <= H)%Z ->
  floordiv (Z.of_nat E) H = Ok (Z.of_nat (E / Z.to_nat H)).
Proof.
  intros HH. unfold floordiv.
  destruct (H =? 0)%Z eqn:E0; [apply Z.eqb_eq in E0; lia|].
  rewrite Nat2Z.inj_div, Z2Nat.id by lia. reflexivity.
Qed.

(** On well-formed heads and a non-zero chunk size, [forward] returns the
    concatenation of the head outputs. *)
Lemma MH_forward_explicit m x :
  wf_MH m -> (1 <= num_heads m)%Z ->
  (1 <= extent x / Z.to_nat (num_heads m))%nat ->
  MH_forward m x
  = Ok (spec_concat
          (head_outputs (attention_heads m)
                        (extent x / Z.to_nat (num_heads m)) x)
          (length (fibres x))).
Proof.
  intros [Hlen Hwf] HH Hc.
  rewrite MH_forward_unfold, floordiv_nat by exact HH. cbn [bind].
  set (cs := (extent x / Z.to_nat (num_heads m))%nat) in *.
  destruct (Z.of_nat cs =? 0)%Z eqn:E0; [apply Z.eqb_eq in E0; lia|].
  rewrite (mapM_ok_map _
             (fun ih : nat * GaussianAdaptiveAttention =>
                {| extent := cs;
                   fibres := map (fun f => fibre_apply (snd ih)
                                             (firstn cs
                                                (skipn (fst ih * cs) f)))
                                 (fibres x) |})).
  - cbn [bind]. apply cat_spec.
    + intro Hnil. apply (f_equal (@length _)) in Hnil.
      unfold head_outputs in Hnil.
      rewrite length_map, enumerate_length in Hnil. simpl in Hnil. lia.
    + unfold head_outputs. apply Forall_map, Forall_forall.
      intros ih _. simpl. now rewrite length_map.
  - intros [i h] Hin. cbn [fst snd].
    pose proof (in_enumerate _ _ _ Hin) as Hi.
    assert (Hh : wf_GAA h).
    { unfold enumerate in Hin. apply in_combine_r in Hin.
      rewrite Forall_forall in Hwf. now apply Hwf. }
    rewrite narrow_chunk.
    + cbn [bind]. rewrite forward_apply by exact Hh.
      cbn [extent fibres]. rewrite Nat2Z.id, map_map. reflexivity.
    + lia.
    + apply chunk_bounds; [exact HH | lia].
Qed.

Lemma firstn_skipn_nth (f : fibre) lo n :
  (lo + n <= length f)%nat ->
  firstn n (skipn lo f) = map (fun j => nth j f 0) (seq lo n).
Proof.
  revert f; induction lo as [|lo IHlo]; intros f Hle.
  - rewrite skipn_O. revert f Hle.
    induction n as [|n IHn]; intros f Hle; [reflexivity|].
    destruct f as [|a f]; [simpl in Hle; lia|].
    cbn [firstn seq map nth]. rewrite <- seq_shift, map_map.
    cbn [nth]. rewrite <- IHn by (simpl in Hle; lia). reflexivity.
  - destruct f as [|a f]; [simpl in Hle; lia|].
    rewrite skipn_cons, <- seq_shift, map_map. cbn [nth].
    apply IHlo. simpl in Hle. lia.
Qed.

Lemma spec_slice_chunk (f : fibre) cs i :
  ((i + 1) * cs <= length f)%nat ->
  spec_slice f (i * cs) ((i + 1) * cs) = firstn cs (skipn (i * cs) f).
Proof.
  intros Hle. unfold spec_slice.
  replace ((i + 1) * cs - i * cs)%nat with cs by lia.
  symmetry. apply firstn_skipn_nth. lia.
Qed.

Lemma firstn_skipn_firstn (f : fibre) n s N :
  (s + n <= N)%nat ->
  firstn n (skipn s (firstn N f)) = firstn n (skipn s f).
Proof.
  intros Hle. rewrite skipn_firstn_comm, firstn_firstn.
  replace (Nat.min n (N - s)) with n by lia. reflexivity.
Qed.

Lemma head_outputs_extent hs cs x :
  list_sum (map extent (head_outputs hs cs x)) = (length hs * cs)%nat.
Proof.
  unfold head_outputs. rewrite map_map. cbn [extent].
  rewrite <- (enumerate_length hs).
  induction (enumerate hs) as [|ih l IH]; simpl; [reflexivity|].
  rewrite IH. reflexivity.
Qed.

Lemma length_concat_const (ls : list fibre) n :
  Forall (fun l => length l = n) ls ->
  length (concat ls) = (length ls * n)%nat.
Proof.
  induction 1 as [|l ls Hl _ IH]; simpl; [reflexivity|].
  rewrite length_app, IH, Hl. reflexivity.
Qed.

Lemma nth_map_default {A B : Type} (g : A -> B) l k d d' :
  (k < length l)%nat -> nth k (map g l) d = g (nth k l d').
Proof.
  intros Hk. rewrite (nth_indep _ d (g d')) by (now rewrite length_map).
  apply map_nth.
Qed.

Lemma head_outputs_fibre_length hs cs x k t :
  wf_tensor x -> (length hs * cs <= extent x)%nat ->
  (k < length (fibres x))%nat -> In t (head_outputs hs cs x) ->
  length (nth k (fibres t) []) = cs.
Proof.
  intros Hx Hle Hk Hin. unfold head_outputs in Hin.
  apply in_map_iff in Hin. destruct Hin as ([i h] & <- & Hin).
  apply in_enumerate in Hin. cbn [fibres fst snd].
  rewrite (nth_map_default _ _ _ _ []) by exact Hk.
  unfold fibre_apply. rewrite fibre_forward_length, length_firstn, length_skipn.
  assert (Hf : length (nth k (fibres x) []) = extent x).
  { unfold wf_tensor in Hx. rewrite Forall_forall in Hx.
    apply Hx, nth_In, Hk. }
  rewrite Hf. nia.
Qed.

Lemma head_outputs_prefix hs cs x x' N :
  (length hs * cs <= N)%nat ->
  map (firstn N) (fibres x') = map (firstn N) (fibres x) ->
  head_outputs hs cs x' = head_outputs hs cs x.
Proof.
  intros Hle Hpre. unfold head_outputs. apply map_ext_in.
  intros [i h] Hin. apply in_enumerate in Hin. cbn [fst snd]. f_equal.
  assert (Hg : forall l,
             map (fun f => fibre_apply h (firstn cs (skipn (i * cs) f))) l
             = map (fun f => fibre_apply h (firstn cs (skipn (i * cs) f)))
                   (map (firstn N) l)).
  { intros l. rewrite map_map. apply map_ext. intros f.
    rewrite firstn_skipn_firstn by nia. reflexivity. }
  rewrite (Hg (fibres x')), (Hg (fibres x)), Hpre. reflexivity.
Qed.

Lemma heads_positive E H :
  (1 <= Z.of_nat E / H)%Z -> (1 <= H)%Z.
Proof.
  intros Hq. destruct (Z.eq_dec H 0) as [->|Hne].
  - rewrite Z.div_0_r in Hq. lia.
  - destruct (Z_lt_le_dec H 0) as [Hneg|Hpos]; [|lia].
    pose proof (Z.div_mod (Z.of_nat E) H Hne) as Hdm.
    pose proof (Z.mod_neg_bound (Z.of_nat E) H Hneg) as Hb.
    nia.
Qed.

(** ** Multi-head: extent of the output *)

(** C4: with [extent // num_heads >= 1], [forward] returns a tensor whose
    extent along the axis is [num_heads * (extent // num_heads)], with as
    many fibres as the input, each of that length.  The extent is the
    input's when [num_heads] divides it; otherwise the output is shorter by
    [extent mod num_heads], and it is determined by the first
    [num_heads * (extent // num_heads)] elements of each fibre: the trailing
    elements reach no head. *)
Theorem MH_output_extent m x :
  wf_MH m -> wf_tensor x ->
  (1 <= Z.of_nat (extent x) / num_heads m)%Z ->
  exists y,
    MH_forward m x = Ok y /\
    Z.of_nat (extent y)
    = (num_heads m * (Z.of_nat (extent x) / num_heads m))%Z /\
    wf_tensor y /\ length (fibres y) = length (fibres x) /\
    ((Z.of_nat (extent x) mod num_heads m = 0)%Z -> extent y = extent x) /\
    Z.of_nat (extent x)
    = (Z.of_nat (extent y) + Z.of_nat (extent x) mod num_heads m)%Z /\
    forall x',
      extent x' = extent x ->
      map (firstn (extent y)) (fibres x') = map (firstn (extent y)) (fibres x) ->
      MH_forward m x' = Ok y.
Proof.
  intros Hm Hx Hq. pose proof (heads_positive _ _ Hq) as HH.
  pose proof Hm as [Hlen Hwf].
  assert (Hdiv : (Z.of_nat (extent x) / num_heads m)%Z
                 = Z.of_nat (extent x / Z.to_nat (num_heads m))).
  { rewrite Nat2Z.inj_div, Z2Nat.id by lia. reflexivity. }
  set (cs := (extent x / Z.to_nat (num_heads m))%nat) in *.
  assert (Hcs : (1 <= cs)%nat) by lia.
  assert (Hext : extent (spec_concat (head_outputs (attention_heads m) cs x)
                           (length (fibres x)))
                 = (length (attention_heads m) * cs)%nat).
  { cbn [spec_concat extent]. apply head_outputs_extent. }
  assert (Hbound : (length (attention_heads m) * cs <= extent x)%nat).
  { pose proof (Nat.Div0.mul_div_le (extent x) (Z.to_nat (num_heads m))).
    fold cs in H. replace (length (attention_heads m))
      with (Z.to_nat (num_heads m)) by lia. lia. }
  eexists. split; [apply MH_forward_explicit; assumption|]. fold cs.
  rewrite Hext. split; [|split; [|split; [|split; [|split]]]].
  - rewrite Hdiv. nia.
  - unfold wf_tensor. rewrite Hext. cbn [spec_concat fibres].
    apply Forall_map, Forall_forall. intros k Hk. apply in_seq in Hk.
    rewrite (length_concat_const _ cs).
    + unfold head_outputs. now rewrite !length_map, enumerate_length.
    + apply Forall_map, Forall_forall. intros t Ht.
      apply (head_outputs_fibre_length (attention_heads m) cs x);
        [assumption|assumption|lia|assumption].
  - cbn [spec_concat fibres]. now rewrite length_map, length_seq.
  - intros Hmod. pose proof (Z.div_mod (Z.of_nat (extent x)) (num_heads m)).
    nia.
  - pose proof (Z.div_mod (Z.of_nat (extent x)) (num_heads m)). nia.
  - intros x' He Hpre.
    rewrite MH_forward_explicit; try assumption; rewrite He; fold cs;
      [|exact Hcs].
    assert (Hn : length (fibres x') = length (fibres x)).
    { apply (f_equal (@length _)) in Hpre. now rewrite !length_map in Hpre. }
    rewrite Hn.
    rewrite (head_outputs_prefix _ _ x x' (length (attention_heads m) * cs));
      [reflexivity | lia | exact Hpre].
Qed.

Lemma wf_mh_two : wf_MH mh_two.
Proof.
  split; [reflexivity|].
  repeat constructor; simpl; lia.
Qed.

Lemma MH_output_extent_witness :
  wf_MH mh_two /\ wf_tensor x_five /\
  (1 <= Z.of_nat (extent x_five) / num_heads mh_two)%Z /\
  exists y, MH_forward mh_two x_five = Ok y /\ extent y = 4%nat.
Proof.
  assert (Hx : wf_tensor x_five) by (repeat constructor).
  assert (Hq : (1 <= Z.of_nat (extent x_five) / num_heads mh_two)%Z)
    by (vm_compute; discriminate).
  split; [exact wf_mh_two|]. split; [exact Hx|]. split; [exact Hq|].
  destruct (MH_output_extent mh_two x_five wf_mh_two Hx Hq)
    as (y & Hy & He & _).
  exists y. split; [exact Hy|].
  apply Nat2Z.inj. rewrite He. reflexivity.
Defined.

(** ** Multi-head: refinement of the partitioned computation *)

(** C5: for [num_heads >= 1], [forward] is the specification's partitioned
    computation: each head, with its own parameters, applied on its own to
    the slice [[i * chunk_size, (i + 1) * chunk_size)] of the input, the
    results concatenated along the axis in head order.  Both raise
    [ValueError] on a zero chunk size, and both return otherwise. *)
Theorem MH_forward_refines_spec m x :
  wf_MH m -> wf_tensor x -> (1 <= num_heads m)%Z ->
  MH_forward m x = spec_MH_apply m x /\
  ((1 <= extent x / Z.to_nat (num_heads m))%nat ->
   exists y, MH_forward m x = Ok y).
Proof.
  intros Hm Hx HH. pose proof Hm as [Hlen Hwf].
  assert (Hsucc : (1 <= extent x / Z.to_nat (num_heads m))%nat ->
                  exists y, MH_forward m x = Ok y).
  { intros Hcs. eexists. apply MH_forward_explicit; assumption. }
  split; [|exact Hsucc].
  unfold spec_MH_apply.
  destruct (extent x / Z.to_nat (num_heads m) =? 0)%nat eqn:E0.
  - apply Nat.eqb_eq in E0.
    rewrite MH_forward_unfold, floordiv_nat, E0 by exact HH. reflexivity.
  - apply Nat.eqb_neq in E0.
    rewrite MH_forward_explicit by (try assumption; lia).
    set (cs := (extent x / Z.to_nat (num_heads m))%nat) in *.
    assert (Hbound : (length (attention_heads m) * cs <= extent x)%nat).
    { pose proof (Nat.Div0.mul_div_le (extent x) (Z.to_nat (num_heads m))).
      fold cs in H. replace (length (attention_heads m))
        with (Z.to_nat (num_heads m)) by lia. lia. }
    rewrite (mapM_ok_map _
               (fun ih : nat * GaussianAdaptiveAttention =>
                  {| extent := cs;
                     fibres := map (fun f => fibre_apply (snd ih)
                                               (firstn cs
                                                  (skipn (fst ih * cs) f)))
                                   (fibres x) |})).
    + reflexivity.
    + intros [i h] Hin. cbn [fst snd].
      pose proof (in_enumerate _ _ _ Hin) as Hi.
      assert (Hh : wf_GAA h).
      { unfold enumerate in Hin. apply in_combine_r in Hin.
        rewrite Forall_forall in Hwf. now apply Hwf. }
      rewrite forward_apply by exact Hh. unfold spec_head_input.
      cbn [extent fibres]. rewrite map_map. do 2 f_equal.
      apply map_ext_in. intros f Hf. f_equal.
      apply spec_slice_chunk.
      unfold wf_tensor in Hx. rewrite Forall_forall in Hx.
      rewrite (Hx f Hf). nia.
Qed.

Lemma MH_forward_refines_spec_witness :
  wf_MH mh_two /\ wf_tensor x_eight /\ (1 <= num_heads mh_two)%Z /\
  MH_forward mh_two x_eight = spec_MH_apply mh_two x_eight /\
  exists y, MH_forward mh_two x_eight = Ok y.
Proof.
  assert (Hx : wf_tensor x_eight) by (repeat constructor).
  assert (HH : (1 <= num_heads mh_two)%Z) by (simpl; lia).
  split; [exact wf_mh_two|]. split; [exact Hx|]. split; [exact HH|].
  destruct (MH_forward_refines_spec mh_two x_eight wf_mh_two Hx HH)
    as [Heq Hok].
  split; [exact Heq|]. apply Hok. simpl. lia.
Defined.

(** * Further properties of the two modules *)

(** ** Construction *)

Lemma GAA_init_fields na G ic e lw pv m :
  GAA_init na G ic e lw pv = Ok m ->
  (0 <= G)%Z /\ norm_axis m = na /\ eps m = e /\ num_gaussians m = G /\
  padding_value m = pv /\ mean_offsets m = repeat 0 (Z.to_nat G) /\
  Z.of_nat (length (c m)) = G /\ Z.of_nat (length (weights m)) = G.
Proof.
  unfold GAA_init, torch_zeros, torch_ones, torch_full.
  destruct (G <? 0)%Z eqn:EG; cbn [bind]; [discriminate|].
  apply Z.ltb_ge in EG.
  assert (Hrep : forall v : R, Z.of_nat (length (repeat v (Z.to_nat G))) = G).
  { intros v. rewrite repeat_length. lia. }
  destruct ic as [v|cs]; cbn [bind].
  - destruct lw as [[|]|p ws|]; cbn [bind]; try discriminate.
    + intros H. inversion H; subst m; cbn [norm_axis eps num_gaussians padding_value mean_offsets c weights fst snd]; repeat split; auto.
    + destruct (Z.of_nat (length ws) =? G)%Z eqn:E; cbn [negb bind];
        [|discriminate].
      apply Z.eqb_eq in E. intros H. inversion H; subst m;
        cbn [norm_axis eps num_gaussians padding_value mean_offsets c weights
             fst snd]; repeat split; auto.
  - destruct (Z.of_nat (length cs) =? G)%Z eqn:Ec; cbn [negb bind];
      [|discriminate].
    apply Z.eqb_eq in Ec.
    destruct lw as [[|]|p ws|]; cbn [bind]; try discriminate.
    + intros H. inversion H; subst m; cbn [norm_axis eps num_gaussians padding_value mean_offsets c weights fst snd]; repeat split; auto.
    + destruct (Z.of_nat (length ws) =? G)%Z eqn:E; cbn [negb bind];
        [|discriminate].
      apply Z.eqb_eq in E. intros H. inversion H; subst m;
        cbn [norm_axis eps num_gaussians padding_value mean_offsets c weights
             fst snd]; repeat split; auto.
Qed.

(** X1: a negative [num_gaussians] makes the constructor raise
    [RuntimeError] before any argument is checked; whenever the constructor
    returns, [num_gaussians] is non-negative, the mean offsets are all zero,
    and offsets, scales and weights have [num_gaussians] entries each. *)
Theorem init_establishes_lengths na G ic e lw pv :
  ((G < 0)%Z -> GAA_init na G ic e lw pv = Raise RuntimeError) /\
  (forall m, GAA_init na G ic e lw pv = Ok m ->
     (0 <= G)%Z /\ num_gaussians m = G /\
     mean_offsets m = repeat 0 (Z.to_nat G) /\
     Z.of_nat (length (c m)) = G /\ Z.of_nat (length (weights m)) = G /\
     eps m = e /\ padding_value m = pv).
Proof.
  split.
  - intros HG. unfold GAA_init, torch_zeros, torch_full.
    apply Z.ltb_lt in HG. rewrite HG. reflexivity.
  - intros m Hm.
    destruct (GAA_init_fields _ _ _ _ _ _ _ Hm)
      as (H0 & _ & He & HG & Hp & Ho & Hc & Hw).
    auto 10.
Qed.

Lemma init_establishes_lengths_witness :
  (-1 < 0)%Z /\
  GAA_init 0 (-1) (TensorC [1; 2]) (/ 100000000) PyOther None
  = Raise RuntimeError.
Proof.
  assert (H : (-1 < 0)%Z) by lia.
  split; [exact H|].
  exact (proj1 (init_establishes_lengths 0 (-1) (TensorC [1; 2])
                  (/ 100000000) PyOther None) H).
Defined.

(** X2: a head built by the constructor with [num_gaussians >= 1] never
    raises in [forward]: the call returns a tensor with the extent and the
    number of fibres of its input, each fibre of the length of the input's. *)
Theorem init_then_forward_returns na G ic e lw pv m x :
  (1 <= G)%Z -> GAA_init na G ic e lw pv = Ok m ->
  exists y,
    forward m x = Ok y /\ extent y = extent x /\
    map (@length R) (fibres y) = map (@length R) (fibres x) /\
    (wf_tensor x -> wf_tensor y).
Proof.
  intros HG Hm. pose proof (GAA_init_wf _ _ _ _ _ _ _ HG Hm) as Hwf.
  eexists. split; [apply forward_apply; exact Hwf|]. cbn [extent fibres].
  split; [reflexivity|].
  assert (Hl : map (@length R) (map (fibre_apply m) (fibres x))
               = map (@length R) (fibres x)).
  { rewrite map_map. apply map_ext. intros f. apply fibre_forward_length. }
  split; [exact Hl|].
  unfold wf_tensor. cbn [extent fibres]. intros Hx.
  apply Forall_map. revert Hx. apply Forall_impl. intros f Hf.
  unfold fibre_apply. now rewrite fibre_forward_length.
Qed.

Lemma init_then_forward_returns_witness :
  (1 <= 2)%Z /\
  exists m, GAA_init 0 2 (ScalarC 2) (/ 100000000) (PyBool true) None = Ok m /\
            exists y, forward m x_eight = Ok y /\ extent y = 8%nat.
Proof.
  assert (HG : (1 <= 2)%Z) by lia.
  split; [exact HG|]. eexists. split; [reflexivity|].
  destruct (init_then_forward_returns 0 2 (ScalarC 2) (/ 100000000)
              (PyBool true) None _ x_eight HG eq_refl) as (y & Hy & He & _).
  exists y. split; [exact Hy | exact He].
Defined.

(** X3: the constructor accepts [num_gaussians = 0], but [forward] of the
    head it returns raises [AttributeError] on every input: the loop body
    never runs and [mixture] is still an integer. *)
Theorem zero_gaussians_forward_raises na ic e lw pv m x :
  GAA_init na 0 ic e lw pv = Ok m ->
  forward m x = Raise AttributeError.
Proof.
  intros Hm.
  destruct (GAA_init_fields _ _ _ _ _ _ _ Hm) as (_ & _ & _ & HG & _).
  unfold forward, components, range. rewrite HG. reflexivity.
Qed.

Lemma zero_gaussians_forward_raises_witness :
  exists m, GAA_init 0 0 (ScalarC 2) (/ 100000000) (PyBool true) None = Ok m /\
            forward m x_eight = Raise AttributeError.
Proof.
  eexists. split; [reflexivity|].
  exact (zero_gaussians_forward_raises 0 (ScalarC 2) (/ 100000000)
           (PyBool true) None _ x_eight eq_refl).
Defined.

Lemma components_of_init na G ic e lw pv m :
  GAA_init na G ic e lw pv = Ok m ->
  components m = Ok (comps_of m) /\
  map snd (comps_of m) = normalized_weights m.
Proof.
  intros Hm.
  destruct (GAA_init_fields _ _ _ _ _ _ _ Hm)
    as (H0 & _ & _ & HG & _ & Ho & Hc & Hw).
  assert (Hlo : Z.of_nat (length (mean_offsets m)) = G).
  { rewrite Ho, repeat_length. lia. }
  split.
  - unfold components, range, component_at, comps_of.
    replace (Z.to_nat (num_gaussians m)) with (length (mean_offsets m)) by lia.
    apply mapM_index3; [lia|]. rewrite normalized_weights_length. lia.
  - unfold comps_of. apply map_snd_combine_le.
    rewrite length_combine, normalized_weights_length. lia.
Qed.

Lemma sum_list_repeat v n : sum_list (repeat v n) = INR n * v.
Proof.
  induction n as [|n IH]; [simpl; lra|].
  cbn [repeat]. rewrite sum_list_cons, IH, S_INR. lra.
Qed.

(** X4: a head freshly built in learnable mode mixes its Gaussians
    uniformly: the weights that [forward] reads are all [1 / num_gaussians]
    (the softmax of the all-ones parameter). *)
Theorem fresh_weights_uniform na G ic e pv m :
  (1 <= G)%Z -> GAA_init na G ic e (PyBool true) pv = Ok m ->
  exists comps,
    components m = Ok comps /\
    map snd comps = repeat (/ IZR G) (Z.to_nat G).
Proof.
  intros HG Hm. destruct (components_of_init _ _ _ _ _ _ _ Hm) as [Hc Hs].
  exists (comps_of m). split; [exact Hc|]. rewrite Hs.
  assert (Hw : weights_is_parameter m = true /\
               weights m = repeat 1 (Z.to_nat G)).
  { revert Hm. unfold GAA_init, torch_zeros, torch_ones.
    rewrite !torch_full_ok by lia. cbn [bind].
    destruct ic as [v|cs].
    - rewrite torch_full_ok by lia. cbn [bind].
      intros H. inversion H; subst m. split; reflexivity.
    - destruct (Z.of_nat (length cs) =? G)%Z; cbn [negb bind];
        [|discriminate].
      intros H. inversion H; subst m. split; reflexivity. }
  destruct Hw as [Hp Hw]. unfold normalized_weights. rewrite Hp, Hw.
  unfold softmax. rewrite !map_repeat, sum_list_repeat. f_equal.
  assert (Hn : INR (Z.to_nat G) = IZR G).
  { rewrite INR_IZR_INZ, Z2Nat.id by lia. reflexivity. }
  rewrite Hn. pose proof (exp_pos 1).
  assert (IZR G <> 0) by (apply not_0_IZR; lia).
  field. split; lra.
Qed.

Lemma fresh_weights_uniform_witness :
  (1 <= 2)%Z /\
  exists m comps,
    GAA_init 0 2 (ScalarC 2) (/ 100000000) (PyBool true) None = Ok m /\
    components m = Ok comps /\ map snd comps = [/ 2; / 2].
Proof.
  assert (HG : (1 <= 2)%Z) by lia.
  split; [exact HG|].
  destruct (fresh_weights_uniform 0 2 (ScalarC 2) (/ 100000000) None _
              HG eq_refl) as (comps & Hc & Hs).
  eexists. exists comps. split; [reflexivity|]. split; [exact Hc | exact Hs].
Defined.

(** X5: a weights tensor handed to the constructor is read by [forward]
    exactly as given when it is a plain tensor, with no normalisation; when
    it is an [nn.Parameter] it is passed through the softmax like the
    module's own learnable weights. *)
Theorem supplied_weights_use na G ic e p ws pv m :
  GAA_init na G ic e (PyTensor p ws) pv = Ok m ->
  exists comps,
    components m = Ok comps /\
    map snd comps = if p then softmax ws else ws.
Proof.
  intros Hm. destruct (components_of_init _ _ _ _ _ _ _ Hm) as [Hc Hs].
  exists (comps_of m). split; [exact Hc|]. rewrite Hs.
  assert (Hw : weights_is_parameter m = p /\ weights m = ws).
  { revert Hm. unfold GAA_init, torch_zeros, torch_ones, torch_full.
    destruct (G <? 0)%Z; cbn [bind]; [discriminate|].
    destruct ic as [v|cs]; cbn [bind].
    - destruct (Z.of_nat (length ws) =? G)%Z; cbn [negb bind];
        [|discriminate].
      intros H. inversion H; subst m. split; reflexivity.
    - destruct (Z.of_nat (length cs) =? G)%Z; cbn [negb bind];
        [|discriminate].
      destruct (Z.of_nat (length ws) =? G)%Z; cbn [negb bind];
        [|discriminate].
      intros H. inversion H; subst m. split; reflexivity. }
  destruct Hw as [Hp Hw]. unfold normalized_weights. now rewrite Hp, Hw.
Qed.

Lemma supplied_weights_use_witness :
  exists m comps,
    GAA_init 0 2 (ScalarC 2) (/ 100000000) (PyTensor false [3; 5]) None
    = Ok m /\
    components m = Ok comps /\ map snd comps = [3; 5].
Proof.
  destruct (supplied_weights_use 0 2 (ScalarC 2) (/ 100000000) false [3; 5]
              None _ eq_refl) as (comps & Hc & Hs).
  eexists. exists comps. split; [reflexivity|]. split; [exact Hc | exact Hs].
Defined.

(** ** One head, entry by entry *)

Lemma map2_map_map {A B C D : Type} (f : B -> C -> D) (g : A -> B)
  (h : A -> C) (l : list A) :
  map2 f (map g l) (map h l) = map (fun v => f (g v) (h v)) l.
Proof.
  induction l as [|a l IH]; simpl; [reflexivity | now rewrite IH].
Qed.

Lemma map2_id_map {A C D : Type} (f : A -> C -> D) (h : A -> C) (l : list A) :
  map2 f l (map h l) = map (fun v => f v (h v)) l.
Proof.
  induction l as [|a l IH]; simpl; [reflexivity | now rewrite IH].
Qed.

Lemma where_mask_map p (a b : R -> R) (x : fibre) :
  where_ (mask p x) (map a x) (map b x)
  = map (fun v => if Rneb v p then a v else b v) x.
Proof.
  unfold where_, mask.
  induction x as [|v x IH]; simpl; [reflexivity | now rewrite IH].
Qed.

Lemma mixture_fold_pointwise mean var (x : fibre) comps (accf : R -> R) :
  fold_left (mixture_step mean var x) comps (map accf x)
  = map (fun v =>
           fold_left
             (fun acc (comp : component) =>
                let '(off, ci, wi) := comp in
                acc + wi * exp (- (((v - (mean + off)) / sqrt var) ^ 2)
                                / (2 * ci ^ 2)))
             comps (accf v))
        x.
Proof.
  revert accf; induction comps as [|[[off ci] wi] comps IH]; intros accf.
  - reflexivity.
  - cbn [fold_left]. unfold mixture_step at 2, gaussian.
    rewrite map_map, map2_map_map. apply IH.
Qed.

(** The mixture, the transform and the output of a fibre are entry-wise
    functions of the fibre's entries once its statistics are fixed. *)
Lemma mixture_pointwise m comps x :
  mixture m comps x = map (mix_at (stat_mean m x) (stat_var m x) comps) x.
Proof.
  unfold mixture, zeros_like, mix_at. apply mixture_fold_pointwise.
Qed.

Lemma y_transform_pointwise m comps x :
  y_transform m comps x
  = map (fun v => mix_at (stat_mean m x) (stat_var m x) comps v
                  / total m comps x) x.
Proof.
  unfold y_transform. rewrite mixture_pointwise at 1. apply map_map.
Qed.

Lemma fibre_forward_pointwise m comps x :
  fibre_forward m comps x
  = map (out_at m (stat_mean m x) (stat_var m x) (total m comps x) comps) x.
Proof.
  unfold fibre_forward, out_at. rewrite y_transform_pointwise.
  destruct (padding_value m) as [p|].
  - rewrite map2_id_map.
    rewrite <- (map_id x) at 3. rewrite where_mask_map. reflexivity.
  - apply map2_id_map.
Qed.

Lemma x_masked_absent m p x :
  padding_value m = Some p -> Forall (fun v => v <> p) x -> x_masked m x = x.
Proof.
  intros Hp Hx. rewrite (x_masked_padding m p x Hp).
  rewrite <- (map_id x) at 2. apply map_ext_in. intros v Hv.
  rewrite Forall_forall in Hx. now rewrite (Rneb_true v p (Hx v Hv)).
Qed.

(** X6: a configured padding value that does not occur in the input has no
    effect: [forward] returns what the same head without a padding value
    returns (also when it raises). *)
Theorem padding_absent_no_effect m p x :
  padding_value m = Some p ->
  Forall (Forall (fun v => v <> p)) (fibres x) ->
  forward m x = forward (without_padding m) x.
Proof.
  intros Hp Hx. unfold forward.
  change (components (without_padding m)) with (components m).
  destruct (components m) as [comps|e]; cbn [bind]; [|reflexivity].
  destruct comps as [|cp comps]; [reflexivity|].
  f_equal. f_equal. apply map_ext_in. intros f Hf.
  rewrite Forall_forall in Hx. pose proof (Hx f Hf) as Hfp.
  assert (Hm : x_masked m f = x_masked (without_padding m) f).
  { rewrite (x_masked_absent m p f Hp Hfp). reflexivity. }
  assert (Hmean : stat_mean m f = stat_mean (without_padding m) f).
  { unfold stat_mean. now rewrite Hm. }
  assert (Hvar : stat_var m f = stat_var (without_padding m) f).
  { unfold stat_var. now rewrite Hm. }
  assert (Htot : total m (cp :: comps) f
                 = total (without_padding m) (cp :: comps) f).
  { unfold total. rewrite !mixture_pointwise, Hmean, Hvar. reflexivity. }
  rewrite !fibre_forward_pointwise, Hmean, Hvar, Htot.
  apply map_ext_in. intros v Hv. unfold out_at. rewrite Hp.
  cbn [padding_value without_padding].
  rewrite Forall_forall in Hfp. now rewrite (Rneb_true v p (Hfp v Hv)).
Qed.

Lemma padding_absent_no_effect_witness :
  padding_value gaa_pad = Some (-1) /\
  Forall (Forall (fun v => v <> -1)) (fibres x_eight) /\
  forward gaa_pad x_eight = forward (without_padding gaa_pad) x_eight.
Proof.
  assert (Hx : Forall (Forall (fun v => v <> -1)) (fibres x_eight)).
  { repeat constructor; lra. }
  split; [reflexivity|]. split; [exact Hx|].
  exact (padding_absent_no_effect gaa_pad (-1) x_eight eq_refl Hx).
Defined.

(** X7: on an input that consists of padding only, a well-formed head is
    the identity. *)
Theorem all_padding_identity m p x :
  wf_GAA m -> padding_value m = Some p ->
  Forall (Forall (fun v => v = p)) (fibres x) ->
  forward m x = Ok x.
Proof.
  intros Hwf Hp Hx. rewrite forward_apply by exact Hwf.
  destruct x as [E fs]. cbn [extent fibres] in *. do 2 f_equal.
  transitivity (map (fun f : list R => f) fs); [|apply map_id].
  apply map_ext_in. intros f Hf.
  rewrite Forall_forall in Hx. pose proof (Hx f Hf) as Hfp.
  unfold fibre_apply. rewrite fibre_forward_pointwise.
  transitivity (map (fun v : R => v) f); [|apply map_id].
  apply map_ext_in. intros v Hv. unfold out_at. rewrite Hp.
  rewrite Forall_forall in Hfp. now rewrite (Rneb_false v p (Hfp v Hv)).
Qed.

Lemma all_padding_identity_witness :
  wf_GAA gaa_pad /\ padding_value gaa_pad = Some (-1) /\
  forward gaa_pad (mkTensor 3 [[-1; -1; -1]]) = Ok (mkTensor 3 [[-1; -1; -1]]).
Proof.
  assert (Hwf : wf_GAA gaa_pad) by (unfold wf_GAA; simpl; lia).
  split; [exact Hwf|]. split; [reflexivity|].
  apply (all_padding_identity gaa_pad (-1) (mkTensor 3 [[-1; -1; -1]]) Hwf
           eq_refl).
  repeat constructor.
Defined.

(** ** What [eps] guards *)

Lemma sum_list_nonneg l : Forall (fun v => 0 <= v) l -> 0 <= sum_list l.
Proof.
  induction 1 as [|a l Ha _ IH]; [simpl; lra|].
  rewrite sum_list_cons. lra.
Qed.

Lemma fvar_nonneg (f : fibre) : (2 <= length f)%nat -> 0 <= fvar f.
Proof.
  intros Hl. unfold fvar, Rdiv. apply Rmult_le_pos.
  - apply sum_list_nonneg, Forall_map, Forall_forall.
    intros v _. apply pow2_ge_0.
  - apply Rlt_le, Rinv_0_lt_compat, lt_0_INR. lia.
Qed.

Lemma components_scales m comps :
  components m = Ok comps ->
  Forall (fun cp : component => In (snd (fst cp)) (c m)) comps.
Proof.
  unfold components. apply mapM_Forall.
  intros i cp _. unfold component_at, index.
  destruct (nth_error (mean_offsets m) i); cbn [bind]; [|discriminate].
  destruct (nth_error (c m) i) as [ci|] eqn:Hc; cbn [bind]; [|discriminate].
  destruct (nth_error (normalized_weights m) i); cbn [bind]; [|discriminate].
  intros H. inversion H; subst cp. cbn [fst snd].
  eapply nth_error_In; eauto.
Qed.

(** X8: in real arithmetic, with a positive [eps], on a fibre of at least
    two entries and with non-zero scales, no quotient of [forward] has a
    zero denominator: the variance plus [eps] is at least [eps], its square
    root is positive, every [2 * c[i] ** 2] is positive, and the clamped
    mixture sum is at least [eps].  (In float32 the square of a very small
    scale can still underflow to zero.) *)
Theorem denominators_positive m comps x :
  components m = Ok comps -> 0 < eps m -> (2 <= length x)%nat ->
  Forall (fun ci => ci <> 0) (c m) ->
  eps m <= stat_var m x /\ 0 < sqrt (stat_var m x) /\
  Forall (fun cp : component => 0 < 2 * snd (fst cp) ^ 2) comps /\
  eps m <= total m comps x.
Proof.
  intros Hc He Hl Hnz.
  assert (Hlen : length (x_masked m x) = length x).
  { unfold x_masked. destruct (padding_value m) as [p|]; [|reflexivity].
    apply where_length; unfold mask, zeros_like; now rewrite length_map. }
  assert (Hv : eps m <= stat_var m x).
  { unfold stat_var. pose proof (fvar_nonneg (x_masked m x)) as H.
    rewrite Hlen in H. specialize (H Hl). lra. }
  split; [exact Hv|]. split; [apply sqrt_lt_R0; lra|]. split.
  - pose proof (components_scales m comps Hc) as Hin.
    rewrite Forall_forall in Hin, Hnz. apply Forall_forall. intros cp Hcp.
    pose proof (Hnz _ (Hin cp Hcp)) as Hci.
    pose proof (pow2_ge_0 (snd (fst cp))) as H0.
    assert (snd (fst cp) ^ 2 <> 0) by (apply pow_nonzero; exact Hci).
    lra.
  - unfold total. apply Rmax_r.
Qed.

Lemma denominators_positive_witness :
  components (gaa_scenario (/ 100000000))
  = Ok [(0, 2, exp 1 / sum_list [exp 1])] /\
  0 < eps (gaa_scenario (/ 100000000)) /\ (2 <= length x_scenario)%nat /\
  Forall (fun ci => ci <> 0) (c (gaa_scenario (/ 100000000))) /\
  eps (gaa_scenario (/ 100000000))
  <= stat_var (gaa_scenario (/ 100000000)) x_scenario.
Proof.
  assert (He : 0 < eps (gaa_scenario (/ 100000000))) by (simpl; lra).
  assert (Hl : (2 <= length x_scenario)%nat) by (simpl; lia).
  assert (Hc : Forall (fun ci => ci <> 0) (c (gaa_scenario (/ 100000000)))).
  { simpl. constructor; [lra | constructor]. }
  split; [apply scenario_components|]. split; [exact He|].
  split; [exact Hl|]. split; [exact Hc|].
  exact (proj1 (denominators_positive _ _ x_scenario
                  (scenario_components (/ 100000000)) He Hl Hc)).
Defined.

(** ** The transform never amplifies *)

Lemma mix_at_pos mean var comps v :
  comps <> [] -> Forall (fun cp : component => 0 < snd cp) comps ->
  0 < mix_at mean var comps v.
Proof.
  intros Hne Hall. unfold mix_at.
  assert (H : forall acc, 0 <= acc ->
            Forall (fun cp : component => 0 < snd cp) comps ->
            comps <> [] ->
            0 < fold_left
                  (fun acc (comp : component) =>
                     let '(off, ci, wi) := comp in
                     acc + wi * exp (- (((v - (mean + off)) / sqrt var) ^ 2)
                                     / (2 * ci ^ 2)))
                  comps acc).
  { clear. induction comps as [|[[off ci] wi] comps IH];
      intros acc Hacc Hall Hne; [contradiction|].
    cbn [fold_left]. inversion Hall as [|? ? Hw Hrest]; subst.
    cbn [snd] in Hw.
    pose proof (exp_pos (- (((v - (mean + off)) / sqrt var) ^ 2)
                         / (2 * ci ^ 2))) as Hexp.
    assert (Hstep : 0 < acc + wi * exp (- (((v - (mean + off)) / sqrt var) ^ 2)
                                        / (2 * ci ^ 2))).
    { pose proof (Rmult_lt_0_compat _ _ Hw Hexp). lra. }
    destruct comps as [|cp comps]; [exact Hstep|].
    apply IH; [lra | exact Hrest | discriminate]. }
  apply H; [lra | exact Hall | exact Hne].
Qed.

Lemma In_le_sum_list a l :
  Forall (fun v => 0 <= v) l -> In a l -> a <= sum_list l.
Proof.
  induction 1 as [|b l Hb Hl IH]; intros Hin; [contradiction|].
  rewrite sum_list_cons. pose proof (sum_list_nonneg l Hl).
  destruct Hin as [->|Hin]; [lra|]. specialize (IH Hin). lra.
Qed.

Lemma Forall2_map_in {A B : Type} (P : A -> B -> Prop) (g : A -> B) l :
  (forall a, In a l -> P a (g a)) -> Forall2 P l (map g l).
Proof.
  induction l as [|a l IH]; intros H; simpl; constructor.
  - apply H. now left.
  - apply IH. intros b Hb. apply H. now right.
Qed.

(** X9: in real arithmetic, in learnable mode and with a positive [eps],
    every entry of the transform lies in (0, 1], so no output entry is
    larger in absolute value than the input entry it comes from.  The
    hypotheses on the fibre's length and on the scales are those under
    which torch's quotients have non-zero denominators.  (In float32 a
    far-tail entry of the transform can underflow to zero: the lower bound
    is strict over the reals only.) *)
Theorem learnable_transform_contracts m comps x :
  wf_GAA m -> weights_is_parameter m = true -> components m = Ok comps ->
  0 < eps m -> (2 <= length x)%nat -> Forall (fun ci => ci <> 0) (c m) ->
  Forall (fun t => 0 < t <= 1) (y_transform m comps x) /\
  Forall2 (fun v o => Rabs o <= Rabs v) x (fibre_forward m comps x).
Proof.
  intros Hwf Hp Hc He _ _.
  pose proof Hwf as (Hg & Ho & Hcc & Hw).
  assert (Hcomps : comps = comps_of m).
  { rewrite components_wf in Hc by exact Hwf. now inversion Hc. }
  assert (Hne : comps <> []).
  { destruct (components_wf_length m comps Hwf Hc) as [_ H]. exact H. }
  assert (Hpos : Forall (fun cp : component => 0 < snd cp) comps).
  { assert (Hs : map snd comps = softmax (weights m)).
    { rewrite Hcomps. unfold comps_of, normalized_weights. rewrite Hp.
      apply map_snd_combine_le.
      rewrite length_combine, softmax_length. lia. }
    assert (Hsm : Forall (fun w => 0 < w) (map snd comps)).
    { rewrite Hs. unfold softmax. apply Forall_map, Forall_forall.
      intros v _. apply Rdiv_lt_0_compat; [apply exp_pos|].
      apply sum_exp_pos. intro H0. rewrite H0 in Hw. simpl in Hw. lia. }
    rewrite Forall_map in Hsm. exact Hsm. }
  set (mu := stat_mean m x). set (va := stat_var m x).
  assert (Hmix : forall v, 0 < mix_at mu va comps v).
  { intros v. apply mix_at_pos; assumption. }
  assert (Htot : 0 < total m comps x).
  { unfold total. eapply Rlt_le_trans; [exact He | apply Rmax_r]. }
  assert (Hle : forall v, In v x -> mix_at mu va comps v <= total m comps x).
  { intros v Hv. unfold total. eapply Rle_trans; [|apply Rmax_l].
    rewrite mixture_pointwise. fold mu va. apply In_le_sum_list.
    - apply Forall_map, Forall_forall. intros u _. apply Rlt_le, Hmix.
    - now apply in_map. }
  assert (Ht : forall v, In v x ->
                 0 < mix_at mu va comps v / total m comps x <= 1).
  { intros v Hv. split.
    - apply Rdiv_lt_0_compat; [apply Hmix | exact Htot].
    - apply Rmult_le_reg_r with (total m comps x); [exact Htot|].
      unfold Rdiv. rewrite Rmult_assoc, Rinv_l by lra.
      specialize (Hle v Hv). lra. }
  split.
  - rewrite y_transform_pointwise. fold mu va.
    apply Forall_map, Forall_forall. exact Ht.
  - rewrite fibre_forward_pointwise. fold mu va.
    apply Forall2_map_in. intros v Hv. unfold out_at.
    assert (Hb : Rabs (v * (mix_at mu va comps v / total m comps x))
                 <= Rabs v).
    { rewrite Rabs_mult. destruct (Ht v Hv) as [H0 H1].
      rewrite (Rabs_pos_eq (mix_at mu va comps v / total m comps x)) by lra.
      pose proof (Rabs_pos v). nra. }
    destruct (padding_value m) as [p|]; [|exact Hb].
    destruct (Rneb v p); [exact Hb | lra].
Qed.

Lemma learnable_transform_contracts_witness :
  wf_GAA (gaa_scenario (/ 100000000)) /\
  weights_is_parameter (gaa_scenario (/ 100000000)) = true /\
  0 < eps (gaa_scenario (/ 100000000)) /\ (2 <= length x_scenario)%nat /\
  Forall (fun ci => ci <> 0) (c (gaa_scenario (/ 100000000))) /\
  Forall (fun t => 0 < t <= 1)
         (y_transform (gaa_scenario (/ 100000000))
                      [(0, 2, exp 1 / sum_list [exp 1])] x_scenario).
Proof.
  assert (Hwf : wf_GAA (gaa_scenario (/ 100000000)))
    by (unfold wf_GAA; simpl; lia).
  assert (He : 0 < eps (gaa_scenario (/ 100000000))) by (simpl; lra).
  assert (Hl : (2 <= length x_scenario)%nat) by (simpl; lia).
  assert (Hc : Forall (fun ci => ci <> 0) (c (gaa_scenario (/ 100000000)))).
  { simpl. constructor; [lra | constructor]. }
  split; [exact Hwf|]. split; [reflexivity|]. split; [exact He|].
  split; [exact Hl|]. split; [exact Hc|].
  exact (proj1 (learnable_transform_contracts _ _ x_scenario Hwf eq_refl
                  (scenario_components (/ 100000000)) He Hl Hc)).
Defined.

(** ** Invariances of one head *)

Lemma sum_list_shift k l :
  sum_list (map (fun v => v + k) l) = sum_list l + INR (length l) * k.
Proof.
  induction l as [|a l IH]; [simpl; lra|].
  cbn [map length]. rewrite !sum_list_cons, IH, S_INR. lra.
Qed.

Lemma fmean_shift k (l : fibre) :
  l <> [] -> fmean (map (fun v => v + k) l) = fmean l + k.
Proof.
  intros Hne. unfold fmean. rewrite sum_list_shift, length_map.
  assert (INR (length l) <> 0).
  { apply not_0_INR. destruct l; [contradiction | discriminate]. }
  field. assumption.
Qed.

Lemma fvar_shift k (l : fibre) : fvar (map (fun v => v + k) l) = fvar l.
Proof.
  destruct l as [|a l]; [reflexivity|].
  unfold fvar. rewrite fmean_shift by discriminate.
  rewrite length_map, map_map. f_equal. f_equal.
  apply map_ext. intros v. f_equal. lra.
Qed.

Lemma mix_at_shift k mean var comps v :
  mix_at (mean + k) var comps (v + k) = mix_at mean var comps v.
Proof.
  unfold mix_at. generalize 0.
  induction comps as [|[[off ci] wi] comps IH]; intros acc; [reflexivity|].
  cbn [fold_left]. rewrite IH. do 2 f_equal.
  replace (v + k - (mean + k + off)) with (v - (mean + off)) by lra.
  reflexivity.
Qed.

(** X10: without a padding value the transform depends on the input only
    through its deviations from the mean: adding one constant to every entry
    of a fibre leaves the transform unchanged, so the output is the shifted
    input scaled by the transform of the original. *)
Theorem transform_translation_invariant m comps k x :
  padding_value m = None ->
  y_transform m comps (map (fun v => v + k) x) = y_transform m comps x /\
  fibre_forward m comps (map (fun v => v + k) x)
  = map2 Rmult (map (fun v => v + k) x) (y_transform m comps x).
Proof.
  intros Hp.
  assert (Hy : y_transform m comps (map (fun v => v + k) x)
               = y_transform m comps x).
  { destruct x as [|a x]; [reflexivity|].
    set (l := a :: x).
    assert (Hmean : stat_mean m (map (fun v => v + k) l) = stat_mean m l + k).
    { unfold stat_mean, x_masked. rewrite Hp.
      apply fmean_shift. discriminate. }
    assert (Hvar : stat_var m (map (fun v => v + k) l) = stat_var m l).
    { unfold stat_var, x_masked. rewrite Hp. now rewrite fvar_shift. }
    assert (Hmix : mixture m comps (map (fun v => v + k) l)
                   = mixture m comps l).
    { rewrite !mixture_pointwise, Hmean, Hvar, map_map.
      apply map_ext. intros v. apply mix_at_shift. }
    unfold y_transform, total. rewrite Hmix. reflexivity. }
  split; [exact Hy|].
  unfold fibre_forward. rewrite Hp, Hy. reflexivity.
Qed.

Lemma transform_translation_invariant_witness :
  padding_value (gaa_scenario (/ 100000000)) = None /\
  y_transform (gaa_scenario (/ 100000000))
              [(0, 2, exp 1 / sum_list [exp 1])]
              (map (fun v => v + 10) x_scenario)
  = y_transform (gaa_scenario (/ 100000000))
                [(0, 2, exp 1 / sum_list [exp 1])] x_scenario.
Proof.
  split; [reflexivity|].
  exact (proj1 (transform_translation_invariant
                  (gaa_scenario (/ 100000000))
                  [(0, 2, exp 1 / sum_list [exp 1])] 10 x_scenario eq_refl)).
Defined.

Lemma sum_list_perm l l' : Permutation l l' -> sum_list l = sum_list l'.
Proof.
  induction 1 as [|a l l' _ IH|a b l|l l' l'' _ IH1 _ IH2].
  - reflexivity.
  - rewrite !sum_list_cons, IH. reflexivity.
  - rewrite !sum_list_cons. lra.
  - now rewrite IH1.
Qed.

Lemma fmean_perm (l l' : fibre) : Permutation l l' -> fmean l = fmean l'.
Proof.
  intros H. unfold fmean.
  now rewrite (sum_list_perm _ _ H), (Permutation_length H).
Qed.

Lemma fvar_perm (l l' : fibre) : Permutation l l' -> fvar l = fvar l'.
Proof.
  intros H. unfold fvar.
  rewrite (fmean_perm _ _ H), (Permutation_length H).
  f_equal. apply sum_list_perm, Permutation_map, H.
Qed.

Lemma x_masked_perm m (l l' : fibre) :
  Permutation l l' -> Permutation (x_masked m l) (x_masked m l').
Proof.
  intros H. destruct (padding_value m) as [p|] eqn:Hp.
  - rewrite !(x_masked_padding m p) by exact Hp. apply Permutation_map, H.
  - unfold x_masked. rewrite Hp. exact H.
Qed.

(** X11: a head has no notion of position.  The output entry at a position
    is one function of the input entry there, the same function for a fibre
    and for every rearrangement of it (the mean, the variance and the
    mixture sum do not depend on the order); so equal entries get equal
    outputs, and rearranging a fibre rearranges the output the same way. *)
Theorem forward_permutation_equivariant m comps x x' :
  Permutation x x' ->
  exists g : R -> R,
    fibre_forward m comps x = map g x /\
    fibre_forward m comps x' = map g x' /\
    Permutation (fibre_forward m comps x) (fibre_forward m comps x').
Proof.
  intros Hperm.
  pose proof (x_masked_perm m _ _ Hperm) as Hmask.
  assert (Hmean : stat_mean m x' = stat_mean m x).
  { unfold stat_mean. symmetry. apply fmean_perm, Hmask. }
  assert (Hvar : stat_var m x' = stat_var m x).
  { unfold stat_var. f_equal. symmetry. apply fvar_perm, Hmask. }
  assert (Htot : total m comps x' = total m comps x).
  { unfold total. rewrite !mixture_pointwise, Hmean, Hvar. f_equal.
    symmetry. apply sum_list_perm, Permutation_map, Hperm. }
  exists (out_at m (stat_mean m x) (stat_var m x) (total m comps x) comps).
  assert (H1 : fibre_forward m comps x
               = map (out_at m (stat_mean m x) (stat_var m x)
                             (total m comps x) comps) x)
    by apply fibre_forward_pointwise.
  assert (H2 : fibre_forward m comps x'
               = map (out_at m (stat_mean m x) (stat_var m x)
                             (total m comps x) comps) x').
  { rewrite fibre_forward_pointwise, Hmean, Hvar, Htot. reflexivity. }
  split; [exact H1|]. split; [exact H2|].
  rewrite H1, H2. apply Permutation_map, Hperm.
Qed.

Lemma forward_permutation_equivariant_witness :
  Permutation [1; 2; 3] [3; 1; 2] /\
  exists g : R -> R,
    fibre_forward gaa_pad (comps_of gaa_pad) [1; 2; 3] = map g [1; 2; 3] /\
    fibre_forward gaa_pad (comps_of gaa_pad) [3; 1; 2] = map g [3; 1; 2].
Proof.
  assert (Hp : Permutation [1; 2; 3] [3; 1; 2]).
  { apply Permutation_sym.
    apply (Permutation_cons_app [1; 2] [] 3). apply Permutation_refl. }
  split; [exact Hp|].
  destruct (forward_permutation_equivariant gaa_pad (comps_of gaa_pad)
              _ _ Hp) as (g & H1 & H2 & _).
  exists g. split; [exact H1 | exact H2].
Defined.

(** ** Construction of the multi-head module *)

Lemma mapM_const_ok {A B : Type} (b : B) (l : list A) :
  mapM (fun _ : A => Ok b) l = Ok (repeat b (length l)).
Proof.
  induction l as [|a l IH]; simpl; [reflexivity | now rewrite IH].
Qed.

(** X12: for [num_heads >= 1] the multi-head constructor fails exactly when
    the single-head constructor fails on the same arguments, with the same
    exception; otherwise it returns [num_heads] heads, all equal to the head
    that the single-head constructor returns. *)
Theorem MH_init_replicates na H G iv lw pv e :
  (1 <= H)%Z ->
  (forall ex, GAA_init na G iv e lw pv = Raise ex ->
              MH_init na H G iv lw pv e = Raise ex) /\
  (forall h, GAA_init na G iv e lw pv = Ok h ->
             MH_init na H G iv lw pv e
             = Ok {| num_heads := H; mh_norm_axis := na;
                     attention_heads := repeat h (Z.to_nat H) |}).
Proof.
  intros HH. unfold MH_init, range.
  destruct (Z.to_nat H) as [|n] eqn:En; [lia|].
  split.
  - intros ex Hex. cbn [seq mapM]. rewrite Hex. reflexivity.
  - intros h Hh. rewrite Hh, mapM_const_ok, length_seq. reflexivity.
Qed.

Lemma MH_init_replicates_witness :
  (1 <= 2)%Z /\
  MH_init 0 2 3 (TensorC [1; 2]) (PyBool true) None (/ 100000000)
  = Raise ValueError.
Proof.
  assert (HH : (1 <= 2)%Z) by lia.
  split; [exact HH|].
  apply (proj1 (MH_init_replicates 0 2 3 (TensorC [1; 2]) (PyBool true) None
                                   (/ 100000000) HH)).
  reflexivity.
Defined.

(** X13: with [num_heads <= 0] the multi-head constructor builds no head and
    checks no argument, so it returns whatever the arguments; [forward] of
    that module never returns: it raises [ZeroDivisionError] for
    [num_heads = 0], and for a negative [num_heads] it raises [ValueError]
    on an empty axis and [RuntimeError] (concatenation of no tensor)
    otherwise. *)
Theorem MH_nonpositive_heads na H G iv lw pv e :
  (H <= 0)%Z ->
  MH_init na H G iv lw pv e
  = Ok {| num_heads := H; mh_norm_axis := na; attention_heads := [] |} /\
  forall x,
    let m := {| num_heads := H; mh_norm_axis := na; attention_heads := [] |} in
    (H = 0%Z -> MH_forward m x = Raise ZeroDivisionError) /\
    ((H < 0)%Z -> extent x = 0%nat -> MH_forward m x = Raise ValueError) /\
    ((H < 0)%Z -> extent x <> 0%nat -> MH_forward m x = Raise RuntimeError).
Proof.
  intros HH. split.
  - unfold MH_init, range. replace (Z.to_nat H) with 0%nat by lia.
    reflexivity.
  - intros x m. rewrite MH_forward_unfold. unfold floordiv.
    cbn [num_heads attention_heads m]. split; [|split].
    + intros ->. reflexivity.
    + intros Hneg HE. rewrite HE.
      destruct (H =? 0)%Z eqn:E0; [apply Z.eqb_eq in E0; lia|].
      cbn [bind]. rewrite Z.div_0_l by lia. reflexivity.
    + intros Hneg HE.
      destruct (H =? 0)%Z eqn:E0; [apply Z.eqb_eq in E0; lia|].
      cbn [bind].
      assert (Hq : (Z.of_nat (extent x) / H <> 0)%Z).
      { pose proof (Z.div_mod (Z.of_nat (extent x)) H ltac:(lia)) as Hdm.
        pose proof (Z.mod_neg_bound (Z.of_nat (extent x)) H Hneg) as Hb.
        nia. }
      apply Z.eqb_neq in Hq. rewrite Hq. reflexivity.
Qed.

Lemma MH_nonpositive_heads_witness :
  (0 <= 0)%Z /\
  MH_init 0 0 (-5) (TensorC []) PyOther None (/ 100000000)
  = Ok {| num_heads := 0; mh_norm_axis := 0; attention_heads := [] |} /\
  MH_forward {| num_heads := 0; mh_norm_axis := 0; attention_heads := [] |}
             x_eight
  = Raise ZeroDivisionError.
Proof.
  assert (HH : (0 <= 0)%Z) by lia.
  split; [exact HH|].
  destruct (MH_nonpositive_heads 0 0 (-5) (TensorC []) PyOther None
              (/ 100000000) HH) as [Hi Hf].
  split; [exact Hi|].
  exact (proj1 (Hf x_eight) eq_refl).
Defined.

(** ** Which inputs the multi-head [forward] accepts *)

(** X14: with [num_heads >= 1] well-formed heads, [forward] raises exactly
    when the extent is smaller than [num_heads], and then [ValueError]; it
    returns on every other input, an extent equal to [num_heads]
    included. *)
Theorem MH_forward_accepts m x :
  wf_MH m -> (1 <= num_heads m)%Z ->
  ((Z.of_nat (extent x) < num_heads m)%Z <->
   MH_forward m x = Raise ValueError) /\
  ((num_heads m <= Z.of_nat (extent x))%Z <->
   exists y, MH_forward m x = Ok y).
Proof.
  intros Hm HH.
  assert (Hsmall : (Z.of_nat (extent x) < num_heads m)%Z ->
                   MH_forward m x = Raise ValueError).
  { intros Hlt. rewrite MH_forward_unfold. unfold floordiv.
    destruct (num_heads m =? 0)%Z eqn:E0; [apply Z.eqb_eq in E0; lia|].
    rewrite Z.div_small by lia. reflexivity. }
  assert (Hlarge : (num_heads m <= Z.of_nat (extent x))%Z ->
                   exists y, MH_forward m x = Ok y).
  { intros Hle. eexists. apply MH_forward_explicit; [exact Hm | exact HH|].
    apply Nat.div_str_pos. lia. }
  split; split; try assumption.
  - intros Herr. destruct (Z_lt_le_dec (Z.of_nat (extent x)) (num_heads m))
      as [Hlt|Hle]; [exact Hlt|].
    destruct (Hlarge Hle) as [y Hy]. congruence.
  - intros [y Hy]. destruct (Z_lt_le_dec (Z.of_nat (extent x)) (num_heads m))
      as [Hlt|Hle]; [|exact Hle].
    rewrite (Hsmall Hlt) in Hy. discriminate.
Qed.

Lemma MH_forward_accepts_witness :
  wf_MH mh_two /\ (1 <= num_heads mh_two)%Z /\
  exists y, MH_forward mh_two (mkTensor 2 [[1; 2]]) = Ok y.
Proof.
  assert (HH : (1 <= num_heads mh_two)%Z) by (simpl; lia).
  split; [exact wf_mh_two|]. split; [exact HH|].
  apply (proj2 (MH_forward_accepts mh_two (mkTensor 2 [[1; 2]])
                                   wf_mh_two HH)).
  simpl. lia.
Defined.

(** ** The wrapper around one head *)

Lemma wf_mh_single h : wf_GAA h -> wf_MH (mh_single h).
Proof.
  intros Hh. split; [reflexivity|].
  constructor; [exact Hh | constructor].
Qed.

(** X15: a multi-head module with a single head computes what the head
    computes on every input with a non-empty axis; on an empty axis the
    wrapper raises [ValueError] although the head itself returns. *)
Theorem single_head_wrapper h x :
  wf_GAA h -> wf_tensor x ->
  ((1 <= extent x)%nat -> MH_forward (mh_single h) x = forward h x) /\
  (extent x = 0%nat ->
   MH_forward (mh_single h) x = Raise ValueError /\
   exists y, forward h x = Ok y).
Proof.
  intros Hh Hx. split.
  - intros HE.
    rewrite MH_forward_explicit;
      [|apply wf_mh_single; exact Hh | simpl; lia
       |cbn [mh_single num_heads]; change (Z.to_nat 1) with 1%nat;
        rewrite Nat.div_1_r; exact HE].
    rewrite forward_apply by exact Hh.
    cbn [mh_single num_heads attention_heads].
    change (Z.to_nat 1) with 1%nat. rewrite Nat.div_1_r.
    unfold spec_concat, head_outputs, enumerate.
    cbn [length seq combine map fst snd extent fibres list_sum concat].
    unfold list_sum. cbn [fold_right]. rewrite Nat.add_0_r. f_equal. f_equal.
    assert (Hf : map (fun f => fibre_apply h
                                 (firstn (extent x) (skipn (0 * extent x) f)))
                     (fibres x)
                 = map (fibre_apply h) (fibres x)).
    { apply map_ext_in. intros f Hf. f_equal.
      unfold wf_tensor in Hx. rewrite Forall_forall in Hx.
      cbn [Nat.mul]. rewrite skipn_O. apply firstn_all2.
      rewrite (Hx f Hf). lia. }
    rewrite Hf. set (L := map (fibre_apply h) (fibres x)).
    replace (length (fibres x)) with (length L)
      by (unfold L; apply length_map).
    transitivity (map (fun k => nth k L []) (seq 0 (length L)));
      [|apply map_nth_seq].
    apply map_ext. intros k. apply app_nil_r.
  - intros HE. split.
    + rewrite MH_forward_unfold. cbn [mh_single num_heads].
      rewrite HE. reflexivity.
    + eexists. apply forward_apply. exact Hh.
Qed.

Lemma single_head_wrapper_witness :
  wf_GAA head_b /\ wf_tensor x_eight /\ (1 <= extent x_eight)%nat /\
  MH_forward (mh_single head_b) x_eight = forward head_b x_eight.
Proof.
  assert (Hh : wf_GAA head_b) by (unfold wf_GAA; simpl; lia).
  assert (Hx : wf_tensor x_eight) by (repeat constructor).
  assert (HE : (1 <= extent x_eight)%nat) by (simpl; lia).
  split; [exact Hh|]. split; [exact Hx|]. split; [exact HE|].
  exact (proj1 (single_head_wrapper head_b x_eight Hh Hx) HE).
Defined.

(** ** The heads are called once each, in order *)

Lemma fst_run_heads x ch ihs :
  (forall ih, In ih ihs ->
     exists xi y, narrow x (Z.of_nat (fst ih) * ch) ch = Ok xi /\
                  forward (snd ih) xi = Ok y) ->
  fst (run_heads x ch ihs) = map fst ihs.
Proof.
  induction ihs as [|[i h] ihs IH]; intros Hall; [reflexivity|].
  cbn [run_heads map fst].
  destruct (Hall (i, h) (or_introl eq_refl)) as (xi & y & Hn & Hf).
  cbn [fst snd] in Hn, Hf. rewrite Hn, Hf.
  rewrite <- IH by (intros ih Hin; apply Hall; now right).
  destruct (run_heads x ch ihs) as [log r]. reflexivity.
Qed.

Lemma map_fst_enumerate {A : Type} (l : list A) :
  map fst (enumerate l) = seq 0 (length l).
Proof.
  unfold enumerate. generalize 0%nat.
  induction l as [|a l IH]; intros s; simpl; [reflexivity | now rewrite IH].
Qed.

(** X16: when [forward] of a well-formed multi-head module returns, which
    it does for [extent // num_heads >= 1], it has called every head exactly
    once, in index order. *)
Theorem heads_called_once_in_order m x :
  wf_MH m -> (1 <= Z.of_nat (extent x) / num_heads m)%Z ->
  fst (MH_forward_traced m x) = seq 0 (Z.to_nat (num_heads m)) /\
  exists y, snd (MH_forward_traced m x) = Ok y.
Proof.
  intros Hm Hq. pose proof (heads_positive _ _ Hq) as HH.
  pose proof Hm as [Hlen Hwf].
  assert (Hcs : (1 <= extent x / Z.to_nat (num_heads m))%nat).
  { rewrite Nat2Z.inj_le, Nat2Z.inj_div, Z2Nat.id by lia. exact Hq. }
  split.
  - unfold MH_forward_traced. rewrite floordiv_nat by exact HH.
    set (cs := (extent x / Z.to_nat (num_heads m))%nat) in *.
    destruct (Z.of_nat cs =? 0)%Z eqn:E0; [apply Z.eqb_eq in E0; lia|].
    pose proof (fst_run_heads x (Z.of_nat cs)
                  (enumerate (attention_heads m))) as Hlog.
    destruct (run_heads x (Z.of_nat cs) (enumerate (attention_heads m)))
      as [log r].
    cbn [fst] in *. rewrite Hlog.
    + rewrite map_fst_enumerate. f_equal. lia.
    + intros [i h] Hin. cbn [fst snd].
      pose proof (in_enumerate _ _ _ Hin) as Hi.
      assert (Hh : wf_GAA h).
      { unfold enumerate in Hin. apply in_combine_r in Hin.
        rewrite Forall_forall in Hwf. now apply Hwf. }
      eexists. eexists. split.
      * apply narrow_chunk; [lia|].
        apply chunk_bounds; [exact HH | lia].
      * apply forward_apply. exact Hh.
  - eexists. apply MH_forward_explicit; assumption.
Qed.

Lemma heads_called_once_in_order_witness :
  wf_MH mh_two /\ (1 <= Z.of_nat (extent x_five) / num_heads mh_two)%Z /\
  fst (MH_forward_traced mh_two x_five) = [0; 1]%nat.
Proof.
  assert (Hq : (1 <= Z.of_nat (extent x_five) / num_heads mh_two)%Z)
    by (vm_compute; discriminate).
  split; [exact wf_mh_two|]. split; [exact Hq|].
  exact (proj1 (heads_called_once_in_order mh_two x_five wf_mh_two Hq)).
Defined.

(** ** Each head owns its chunk of the output *)

Lemma concat_chunk (ls : list (list R)) cs i :
  Forall (fun l => length l = cs) ls -> (i < length ls)%nat ->
  firstn cs (skipn (i * cs) (concat ls)) = nth i ls [].
Proof.
  intros Hall. revert i.
  induction Hall as [|l ls Hl _ IH]; intros i Hi; [simpl in Hi; lia|].
  cbn [concat]. destruct i as [|i].
  - cbn [Nat.mul nth]. rewrite skipn_O, firstn_app, Hl, Nat.sub_diag.
    rewrite firstn_O, app_nil_r. apply firstn_all2. lia.
  - cbn [nth]. rewrite skipn_app, Hl.
    rewrite skipn_all2 by (simpl; lia). cbn [app].
    replace (S i * cs - cs)%nat with (i * cs)%nat by (simpl; lia).
    apply IH. simpl in Hi. lia.
Qed.

Lemma nth_enumerate {A : Type} (l : list A) i d :
  (i < length l)%nat -> nth i (enumerate l) (0%nat, d) = (i, nth i l d).
Proof.
  intros Hi. unfold enumerate.
  rewrite combine_nth by apply length_seq.
  rewrite seq_nth by exact Hi. reflexivity.
Qed.

Lemma nth_error_seq0 n k : (k < n)%nat -> nth_error (seq 0 n) k = Some k.
Proof.
  intros Hk. rewrite (nth_error_nth' _ 0%nat) by (now rewrite length_seq).
  now rewrite seq_nth.
Qed.

Lemma MH_output_chunks m x :
  wf_MH m -> wf_tensor x ->
  (1 <= Z.of_nat (extent x) / num_heads m)%Z ->
  exists y,
    MH_forward m x = Ok y /\
    extent y = (length (attention_heads m)
                * (extent x / Z.to_nat (num_heads m)))%nat /\
    forall k f,
      nth_error (fibres x) k = Some f ->
      exists g,
        nth_error (fibres y) k = Some g /\
        forall i h,
          nth_error (attention_heads m) i = Some h ->
          firstn (extent x / Z.to_nat (num_heads m))
                 (skipn (i * (extent x / Z.to_nat (num_heads m))) g)
          = fibre_apply h
              (firstn (extent x / Z.to_nat (num_heads m))
                      (skipn (i * (extent x / Z.to_nat (num_heads m))) f)).
Proof.
  intros Hm Hx Hq. pose proof (heads_positive _ _ Hq) as HH.
  pose proof Hm as [Hlen Hwf].
  assert (Hcs : (1 <= extent x / Z.to_nat (num_heads m))%nat).
  { rewrite Nat2Z.inj_le, Nat2Z.inj_div, Z2Nat.id by lia. exact Hq. }
  set (cs := (extent x / Z.to_nat (num_heads m))%nat) in *.
  assert (Hbound : (length (attention_heads m) * cs <= extent x)%nat).
  { pose proof (Nat.Div0.mul_div_le (extent x) (Z.to_nat (num_heads m))).
    fold cs in H. replace (length (attention_heads m))
      with (Z.to_nat (num_heads m)) by lia. lia. }
  eexists. split; [apply MH_forward_explicit; assumption|]. fold cs.
  split; [cbn [spec_concat extent]; apply head_outputs_extent|].
  intros k f Hk.
  assert (Hkn : (k < length (fibres x))%nat)
    by (apply nth_error_Some; congruence).
  eexists. split.
  - cbn [spec_concat fibres]. rewrite nth_error_map, nth_error_seq0 by exact Hkn.
    reflexivity.
  - intros i h Hi.
    assert (Hin : (i < length (attention_heads m))%nat)
      by (apply nth_error_Some; congruence).
    rewrite concat_chunk.
    + unfold head_outputs. rewrite map_map.
      rewrite (nth_map_default _ _ _ _ (0%nat, h))
        by (now rewrite enumerate_length).
      rewrite nth_enumerate by exact Hin.
      rewrite (nth_error_nth _ _ _ Hi). cbn [fst snd fibres].
      rewrite (nth_map_default _ _ _ _ []) by exact Hkn.
      now rewrite (nth_error_nth _ _ _ Hk).
    + apply Forall_map, Forall_forall. intros t Ht.
      apply (head_outputs_fibre_length (attention_heads m) cs x);
        assumption.
    + unfold head_outputs. now rewrite !length_map, enumerate_length.
Qed.

(** X17: the multi-head output is local.  Chunk [i] of every output fibre
    is what head [i] alone returns on chunk [i] of the corresponding input
    fibre: no head reads or writes outside its own chunk. *)
Theorem output_chunk_locality m x :
  wf_MH m -> wf_tensor x ->
  (1 <= Z.of_nat (extent x) / num_heads m)%Z ->
  exists y,
    MH_forward m x = Ok y /\
    forall k f i h,
      nth_error (fibres x) k = Some f ->
      nth_error (attention_heads m) i = Some h ->
      exists g,
        nth_error (fibres y) k = Some g /\
        forward h
          (mkTensor (extent x / Z.to_nat (num_heads m))
             [firstn (extent x / Z.to_nat (num_heads m))
                     (skipn (i * (extent x / Z.to_nat (num_heads m))) f)])
        = Ok (mkTensor (extent x / Z.to_nat (num_heads m))
                [firstn (extent x / Z.to_nat (num_heads m))
                        (skipn (i * (extent x / Z.to_nat (num_heads m))) g)]).
Proof.
  intros Hm Hx Hq.
  destruct (MH_output_chunks m x Hm Hx Hq) as (y & Hy & _ & Hch).
  exists y. split; [exact Hy|]. intros k f i h Hk Hi.
  destruct (Hch k f Hk) as (g & Hg & Hloc).
  exists g. split; [exact Hg|].
  assert (Hh : wf_GAA h).
  { destruct Hm as [_ Hwf]. rewrite Forall_forall in Hwf.
    eapply Hwf, nth_error_In, Hi. }
  rewrite forward_apply by exact Hh. cbn [extent fibres map].
  now rewrite (Hloc i h Hi).
Qed.

Lemma output_chunk_locality_witness :
  wf_MH mh_two /\ wf_tensor x_eight /\
  (1 <= Z.of_nat (extent x_eight) / num_heads mh_two)%Z /\
  exists y g,
    MH_forward mh_two x_eight = Ok y /\
    nth_error (fibres y) 0 = Some g /\
    forward head_b (mkTensor 4 [[5; 6; 7; 8]])
    = Ok (mkTensor 4 [firstn 4 (skipn 4 g)]).
Proof.
  assert (Hx : wf_tensor x_eight) by (repeat constructor).
  assert (Hq : (1 <= Z.of_nat (extent x_eight) / num_heads mh_two)%Z)
    by (vm_compute; discriminate).
  split; [exact wf_mh_two|]. split; [exact Hx|]. split; [exact Hq|].
  destruct (output_chunk_locality mh_two x_eight wf_mh_two Hx Hq)
    as (y & Hy & Hloc).
  destruct (Hloc 0%nat [1; 2; 3; 4; 5; 6; 7; 8] 1%nat head_b eq_refl eq_refl)
    as (g & Hg & Hf).
  exists y, g. split; [exact Hy|]. split; [exact Hg | exact Hf].
Defined.

Lemma fibre_padding_entry h comps (f : fibre) r p :
  padding_value h = Some p -> nth_error f r = Some p ->
  nth_error (fibre_forward h comps f) r = Some p.
Proof.
  intros Hp Hr. rewrite fibre_forward_pointwise, nth_error_map, Hr.
  cbn [option_map]. unfold out_at. rewrite Hp.
  now rewrite (Rneb_false p p eq_refl).
Qed.

(** X18: padding passes through the multi-head module as well.  When every
    head is configured with the padding value [p], every position of the
    input that holds [p] and lies within the output's extent holds [p] in
    the output. *)
Theorem MH_padding_passthrough m p x :
  wf_MH m -> wf_tensor x ->
  (1 <= Z.of_nat (extent x) / num_heads m)%Z ->
  Forall (fun h => padding_value h = Some p) (attention_heads m) ->
  exists y,
    MH_forward m x = Ok y /\
    forall k f g j,
      nth_error (fibres x) k = Some f -> nth_error (fibres y) k = Some g ->
      (j < extent y)%nat -> nth_error f j = Some p ->
      nth_error g j = Some p.
Proof.
  intros Hm Hx Hq Hpad.
  destruct (MH_output_chunks m x Hm Hx Hq) as (y & Hy & Hext & Hch).
  exists y. split; [exact Hy|]. intros k f g j Hk Hg Hj Hfj.
  destruct (Hch k f Hk) as (g' & Hg' & Hloc).
  assert (g' = g) by congruence. subst g'.
  set (cs := (extent x / Z.to_nat (num_heads m))%nat) in *.
  assert (Hcs : (cs <> 0)%nat).
  { intro H0. rewrite Hext, H0 in Hj. lia. }
  pose proof (Nat.div_mod_eq j cs) as Hdm.
  pose proof (Nat.mod_upper_bound j cs Hcs) as Hr.
  assert (Hi : (j / cs < length (attention_heads m))%nat).
  { rewrite Hext in Hj. apply Nat.Div0.div_lt_upper_bound. lia. }
  destruct (nth_error (attention_heads m) (j / cs)) as [h|] eqn:Hh;
    [|apply nth_error_None in Hh; lia].
  assert (Hp : padding_value h = Some p).
  { rewrite Forall_forall in Hpad. eapply Hpad, nth_error_In, Hh. }
  assert (Hsplit : forall l : list R,
             nth_error (firstn cs (skipn (j / cs * cs) l)) (j mod cs)
             = nth_error l j).
  { intros l. rewrite nth_error_firstn.
    replace (j mod cs <? cs)%nat with true
      by (symmetry; apply Nat.ltb_lt; exact Hr).
    rewrite nth_error_skipn. f_equal. lia. }
  rewrite <- Hsplit, (Hloc _ h Hh). unfold fibre_apply.
  apply fibre_padding_entry; [exact Hp|].
  rewrite Hsplit. exact Hfj.
Qed.

Lemma MH_padding_passthrough_witness :
  wf_MH (mh_single gaa_pad) /\
  wf_tensor (mkTensor 3 [[2; 4; -1]]) /\
  (1 <= Z.of_nat 3 / num_heads (mh_single gaa_pad))%Z /\
  exists y g,
    MH_forward (mh_single gaa_pad) (mkTensor 3 [[2; 4; -1]]) = Ok y /\
    nth_error (fibres y) 0 = Some g /\ nth_error g 2 = Some (-1).
Proof.
  assert (Hm : wf_MH (mh_single gaa_pad)).
  { apply wf_mh_single. unfold wf_GAA; simpl; lia. }
  assert (Hx : wf_tensor (mkTensor 3 [[2; 4; -1]])) by (repeat constructor).
  assert (Hq : (1 <= Z.of_nat 3 / num_heads (mh_single gaa_pad))%Z)
    by (vm_compute; discriminate).
  assert (Hp : Forall (fun h => padding_value h = Some (-1))
                      (attention_heads (mh_single gaa_pad))).
  { constructor; [reflexivity | constructor]. }
  split; [exact Hm|]. split; [exact Hx|]. split; [exact Hq|].
  destruct (MH_padding_passthrough (mh_single gaa_pad) (-1)
              (mkTensor 3 [[2; 4; -1]]) Hm Hx Hq Hp) as (y & Hy & Hpass).
  destruct (MH_output_chunks (mh_single gaa_pad) (mkTensor 3 [[2; 4; -1]])
              Hm Hx Hq) as (y' & Hy' & He & Hch).
  assert (y' = y) by congruence. subst y'.
  destruct (Hch 0%nat [2; 4; -1] eq_refl) as (g & Hg & _).
  exists y, g. split; [exact Hy|]. split; [exact Hg|].
  apply (Hpass 0%nat [2; 4; -1] g 2%nat eq_refl Hg); [|reflexivity].
  rewrite He. simpl. lia.
Defined.

Lemma denominators_guarded_aux m comps x :
  0 < eps m -> (2 <= length x)%nat ->
  0 < sqrt (stat_var m x) /\ 0 < total m comps x.
Proof.
  intros He Hl.
  assert (Hlen : length (x_masked m x) = length x).
  { unfold x_masked. destruct (padding_value m) as [p|]; [|reflexivity].
    apply where_length; unfold mask, zeros_like; now rewrite length_map. }
  split.
  - apply sqrt_lt_R0. unfold stat_var.
    pose proof (fvar_nonneg (x_masked m x)) as H.
    rewrite Hlen in H. specialize (H Hl). lra.
  - unfold total. eapply Rlt_le_trans; [exact He | apply Rmax_r].
Qed.

(** ** The bell shape *)

Section Bell.

Variables (mean s : R) (v v' : R).
Hypothesis Hs : 0 < s.

Lemma bell_step_eq acc comp :
  centred comp -> (v - mean) ^ 2 = (v' - mean) ^ 2 ->
  bell_step mean s v acc comp = bell_step mean s v' acc comp.
Proof.
  destruct comp as [[off ci] wi]. intros (Ho & _ & _) Heq.
  cbn [fst snd] in Ho. subst off. unfold bell_step. do 3 f_equal.
  unfold Rdiv. rewrite !Rpow_mult_distr.
  replace (v - (mean + 0)) with (v - mean) by lra.
  replace (v' - (mean + 0)) with (v' - mean) by lra.
  now rewrite Heq.
Qed.

Lemma bell_step_lt acc acc' comp :
  centred comp -> (v - mean) ^ 2 < (v' - mean) ^ 2 -> acc' <= acc ->
  bell_step mean s v' acc' comp < bell_step mean s v acc comp.
Proof.
  destruct comp as [[off ci] wi]. intros (Ho & Hc & Hw) Hlt Hacc.
  cbn [fst snd] in Ho, Hc, Hw. subst off. unfold bell_step.
  assert (Hk : 0 < 2 * ci ^ 2).
  { pose proof (pow2_ge_0 ci). assert (ci ^ 2 <> 0) by now apply pow_nonzero.
    lra. }
  assert (Hg : exp (- ((v' - (mean + 0)) / s) ^ 2 / (2 * ci ^ 2))
               < exp (- ((v - (mean + 0)) / s) ^ 2 / (2 * ci ^ 2))).
  { apply exp_gauss_lt; [exact Hs | exact Hk|].
    replace (v - (mean + 0)) with (v - mean) by lra.
    replace (v' - (mean + 0)) with (v' - mean) by lra. exact Hlt. }
  pose proof (Rmult_lt_compat_l wi _ _ Hw Hg). lra.
Qed.

Lemma bell_fold_eq comps acc :
  Forall centred comps -> (v - mean) ^ 2 = (v' - mean) ^ 2 ->
  fold_left (bell_step mean s v) comps acc = fold_left (bell_step mean s v') comps acc.
Proof.
  intros Hall Heq. revert acc.
  induction Hall as [|comp comps Hc _ IH]; intros acc; [reflexivity|].
  cbn [fold_left]. rewrite (bell_step_eq acc comp Hc Heq). apply IH.
Qed.

Lemma bell_fold_lt comps acc acc' :
  Forall centred comps -> comps <> [] ->
  (v - mean) ^ 2 < (v' - mean) ^ 2 -> acc' <= acc ->
  fold_left (bell_step mean s v') comps acc' < fold_left (bell_step mean s v) comps acc.
Proof.
  intros Hall. revert acc acc'.
  induction Hall as [|comp comps Hc Hrest IH]; intros acc acc' Hne Hlt Hacc;
    [contradiction|].
  cbn [fold_left].
  pose proof (bell_step_lt acc acc' comp Hc Hlt Hacc) as Hstep.
  destruct comps as [|comp2 comps]; [exact Hstep|].
  apply IH; [discriminate | exact Hlt | lra].
Qed.

End Bell.

Lemma comps_of_centred m :
  wf_GAA m -> weights_is_parameter m = true ->
  Forall (fun o => o = 0) (mean_offsets m) ->
  Forall (fun ci => ci <> 0) (c m) ->
  Forall centred (comps_of m).
Proof.
  intros (Hg & Ho & Hc & Hw) Hp Hoff Hnz.
  apply Forall_forall. intros [[off ci] wi] Hin. unfold comps_of in Hin.
  pose proof (in_combine_l _ _ _ _ Hin) as Hl.
  pose proof (in_combine_r _ _ _ _ Hin) as Hr.
  pose proof (in_combine_l _ _ _ _ Hl) as Hlo.
  pose proof (in_combine_r _ _ _ _ Hl) as Hlc.
  rewrite Forall_forall in Hoff, Hnz.
  unfold centred. cbn [fst snd]. split; [now apply Hoff|].
  split; [now apply Hnz|].
  unfold normalized_weights in Hr. rewrite Hp in Hr. unfold softmax in Hr.
  apply in_map_iff in Hr. destruct Hr as (w & <- & _).
  apply Rdiv_lt_0_compat; [apply exp_pos|].
  apply sum_exp_pos. intro H0. rewrite H0 in Hw. simpl in Hw. lia.
Qed.

(** X19: in real arithmetic, the transform of a head whose mean offsets are
    all zero (as after construction), in learnable mode, is bell-shaped
    around the mean of the fibre: two entries at the same distance from the
    mean get the same transform, and of two entries the one closer to the
    mean gets the strictly larger transform.  It needs a positive [eps],
    non-zero scales and a fibre of at least two entries.  (In float32 two
    far-tail entries can both underflow to zero: the inequality is strict
    over the reals only.) *)
Theorem transform_bell_shaped m comps x j j' v v' :
  wf_GAA m -> weights_is_parameter m = true -> components m = Ok comps ->
  Forall (fun o => o = 0) (mean_offsets m) ->
  Forall (fun ci => ci <> 0) (c m) ->
  0 < eps m -> (2 <= length x)%nat ->
  nth_error x j = Some v -> nth_error x j' = Some v' ->
  exists t t',
    nth_error (y_transform m comps x) j = Some t /\
    nth_error (y_transform m comps x) j' = Some t' /\
    ((v - stat_mean m x) ^ 2 = (v' - stat_mean m x) ^ 2 -> t = t') /\
    ((v - stat_mean m x) ^ 2 < (v' - stat_mean m x) ^ 2 -> t' < t).
Proof.
  intros Hwf Hp Hc Hoff Hnz He Hl Hj Hj'.
  assert (Hcomps : comps = comps_of m).
  { rewrite components_wf in Hc by exact Hwf. now inversion Hc. }
  assert (Hne : comps <> []).
  { destruct (components_wf_length m comps Hwf Hc) as [_ H]. exact H. }
  pose proof (comps_of_centred m Hwf Hp Hoff Hnz) as Hcen.
  rewrite <- Hcomps in Hcen.
  destruct (denominators_guarded_aux m comps x He Hl) as [Hsq Htot].
  rewrite y_transform_pointwise, !nth_error_map, Hj, Hj'. cbn [option_map].
  eexists. eexists. split; [reflexivity|]. split; [reflexivity|].
  unfold mix_at. split.
  - intros Heq. f_equal.
    apply (bell_fold_eq (stat_mean m x) (sqrt (stat_var m x)) v v'
             comps 0 Hcen Heq).
  - intros Hlt. unfold Rdiv. apply Rmult_lt_compat_r.
    + apply Rinv_0_lt_compat, Htot.
    + apply (bell_fold_lt (stat_mean m x) (sqrt (stat_var m x)) v v' Hsq
               comps 0 0 Hcen Hne Hlt). lra.
Qed.

Lemma transform_bell_shaped_witness :
  wf_GAA (gaa_scenario (/ 100000000)) /\
  0 < eps (gaa_scenario (/ 100000000)) /\ (2 <= length x_scenario)%nat /\
  exists t t',
    nth_error (y_transform (gaa_scenario (/ 100000000))
                 [(0, 2, exp 1 / sum_list [exp 1])] x_scenario) 1 = Some t /\
    nth_error (y_transform (gaa_scenario (/ 100000000))
                 [(0, 2, exp 1 / sum_list [exp 1])] x_scenario) 0 = Some t' /\
    t' < t.
Proof.
  assert (Hwf : wf_GAA (gaa_scenario (/ 100000000)))
    by (unfold wf_GAA; simpl; lia).
  assert (He : 0 < eps (gaa_scenario (/ 100000000))) by (simpl; lra).
  assert (Hl : (2 <= length x_scenario)%nat) by (simpl; lia).
  assert (Ho : Forall (fun o => o = 0)
                      (mean_offsets (gaa_scenario (/ 100000000)))).
  { simpl. constructor; [reflexivity | constructor]. }
  assert (Hc : Forall (fun ci => ci <> 0) (c (gaa_scenario (/ 100000000)))).
  { simpl. constructor; [lra | constructor]. }
  split; [exact Hwf|]. split; [exact He|]. split; [exact Hl|].
  destruct (transform_bell_shaped (gaa_scenario (/ 100000000))
              [(0, 2, exp 1 / sum_list [exp 1])] x_scenario 1 0 2 1
              Hwf eq_refl (scenario_components (/ 100000000)) Ho Hc He Hl
              eq_refl eq_refl) as (t & t' & Ht & Ht' & _ & Hlt).
  exists t, t'. split; [exact Ht|]. split; [exact Ht'|].
  apply Hlt. rewrite (proj1 (scenario_stats (/ 100000000))). lra.
Defined.

(** ** A multi-head module without Gaussians *)

(** X20: the multi-head constructor accepts [num_gaussians = 0] as the
    single-head one does.  [forward] of the module it returns raises
    [ValueError] when the extent is smaller than [num_heads]; on every other
    input it raises [AttributeError] inside the first head, and no other
    head is called. *)
Theorem MH_zero_gaussians na H iv lw pv e m x :
  (1 <= H)%Z -> MH_init na H 0 iv lw pv e = Ok m ->
  ((Z.of_nat (extent x) < H)%Z ->
   MH_forward_traced m x = ([], Raise ValueError)) /\
  ((H <= Z.of_nat (extent x))%Z ->
   MH_forward_traced m x = ([0%nat], Raise AttributeError)).
Proof.
  intros HH Hm. unfold MH_init, range in Hm.
  destruct (Z.to_nat H) as [|n] eqn:En; [lia|].
  cbn [seq mapM] in Hm.
  destruct (GAA_init na 0 iv e lw pv) as [h|ex] eqn:Hh; cbn [bind] in Hm;
    [|discriminate].
  rewrite mapM_const_ok in Hm. cbn [bind] in Hm.
  inversion Hm; subst m; clear Hm.
  assert (Hraise : forall xi, forward h xi = Raise AttributeError).
  { intros xi.
    destruct (GAA_init_fields _ _ _ _ _ _ _ Hh) as (_ & _ & _ & HG & _).
    unfold forward, components, range. rewrite HG. reflexivity. }
  unfold MH_forward_traced. cbn [num_heads attention_heads].
  rewrite floordiv_nat by exact HH. rewrite En. split.
  - intros Hlt. rewrite Nat.div_small by lia. reflexivity.
  - intros Hle.
    assert (Hcs : (1 <= extent x / S n)%nat)
      by (apply Nat.div_str_pos; lia).
    set (cs := (extent x / S n)%nat) in *.
    destruct (Z.of_nat cs =? 0)%Z eqn:E0; [apply Z.eqb_eq in E0; lia|].
    unfold enumerate. cbn [repeat length seq combine run_heads].
    rewrite narrow_chunk.
    + rewrite Hraise. reflexivity.
    + lia.
    + pose proof (Nat.Div0.mul_div_le (extent x) (S n)) as Hb.
      fold cs in Hb. nia.
Qed.

Lemma MH_zero_gaussians_witness :
  (1 <= 2)%Z /\
  exists m,
    MH_init 0 2 0 (ScalarC 2) (PyBool true) None (/ 100000000) = Ok m /\
    MH_forward_traced m x_eight = ([0%nat], Raise AttributeError).
Proof.
  assert (HH : (1 <= 2)%Z) by lia.
  split; [exact HH|]. eexists. split; [reflexivity|].
  apply (proj2 (MH_zero_gaussians 0 2 (ScalarC 2) (PyBool true) None
                  (/ 100000000) _ x_eight HH eq_refl)).
  simpl. lia.
Defined.
